(** * The Raft node of Raft_JS_APP

    A shallow embedding of the class [RaftNode] (the consensus core of the
    auction application): the two RPC handlers [onAppendEntriesMessage] and
    [onRequestVoteMessage], the applier [applyLogEntries], the election
    start [startNewElection] and the timer helpers they call.

    The node object is a record, every method is a function in a small
    monad that threads the node, collects the calls made to the
    collaborators (RPC manager, web server manager, database manager, timer
    service) in the order the source makes them, and carries a thrown
    exception.  JavaScript numbers that the source can leave [undefined] or
    [NaN] are modelled as such.  Calls to [debugLog] only print and are left
    out. *)

From Stdlib Require Import ZArith List String Ascii Bool Lia DecimalString Sorted.
Import ListNotations.
Local Open Scope string_scope.
Local Open Scope Z_scope.
Local Open Scope list_scope.

Set Implicit Arguments.

(** ** JavaScript numbers and arrays *)

(** A value of a numeric field: an integer, [undefined] (a missing map key,
    an array read out of range) or [NaN] (arithmetic on [undefined]). *)
Inductive jsnum : Type :=
| Num (z : Z)
| Undefined
| NaN.

(** [x + k] and [x - k] for an integer literal [k]. *)
Definition js_add (x : jsnum) (k : Z) : jsnum :=
  match x with
  | Num z => Num (z + k)
  | _ => NaN
  end.

(** [x > y]: false as soon as one side is not a number. *)
Definition js_gt (x y : jsnum) : bool :=
  match x, y with
  | Num a, Num b => a >? b
  | _, _ => false
  end.

(** [x >= 0]. *)
Definition js_ge0 (x : jsnum) : bool :=
  match x with
  | Num a => a >=? 0
  | _ => false
  end.

(** [Number.prototype.toString] on the integers the node handles. *)
Definition Z_toString (z : Z) : string := NilZero.string_of_int (Z.to_int z).

Definition ToString (x : jsnum) : string :=
  match x with
  | Num z => Z_toString z
  | Undefined => "undefined"
  | NaN => "NaN"
  end.

Definition is_undefined (x : jsnum) : bool :=
  match x with
  | Undefined => true
  | _ => false
  end.

(** [Array.prototype.sort()] without a comparison function: the elements
    that are not [undefined] are ordered by comparing their string
    conversions code unit by code unit, and every [undefined] goes to the
    end. *)
Definition sort_le (x y : jsnum) : bool := String.leb (ToString x) (ToString y).

Fixpoint sort_insert (x : jsnum) (l : list jsnum) : list jsnum :=
  match l with
  | [] => [x]
  | y :: r => if sort_le x y then x :: y :: r else y :: sort_insert x r
  end.

Definition Array_sort (l : list jsnum) : list jsnum :=
  fold_right sort_insert [] (filter (fun x => negb (is_undefined x)) l)
  ++ filter is_undefined l.

(** [a[i]] on an array of numbers. *)
Definition Array_get (l : list jsnum) (i : Z) : jsnum :=
  if i <? 0 then Undefined else nth (Z.to_nat i) l Undefined.

(** ** [Map] objects keyed by node id

    Keys are kept in insertion order, as [Map.prototype.values] and
    [forEach] see them. *)
Definition NodeId := string.

Definition JSMap (V : Type) := list (NodeId * V).

Fixpoint Map_get {V} (m : JSMap V) (k : NodeId) : option V :=
  match m with
  | [] => None
  | (k', v) :: r => if String.eqb k' k then Some v else Map_get r k
  end.

Fixpoint Map_set {V} (k : NodeId) (v : V) (m : JSMap V) : JSMap V :=
  match m with
  | [] => [(k, v)]
  | (k', v') :: r =>
      if String.eqb k' k then (k', v) :: r else (k', v') :: Map_set k v r
  end.

Fixpoint Map_delete {V} (k : NodeId) (m : JSMap V) : JSMap V :=
  match m with
  | [] => []
  | (k', v') :: r =>
      if String.eqb k' k then r else (k', v') :: Map_delete k r
  end.

Definition Map_keys {V} (m : JSMap V) : list NodeId := map fst m.
Definition Map_values {V} (m : JSMap V) : list V := map snd m.

(** [m.get(k)] on a map of numbers. *)
Definition Map_num (m : JSMap jsnum) (k : NodeId) : jsnum :=
  match Map_get m k with
  | Some v => v
  | None => Undefined
  end.

(** ** Log records *)

(** The command vocabulary of [applyLogEntry]; [UNKNOWN_COMMAND] stands for
    every other value, which the [switch] sends to its [default] case. *)
Inductive CommandType : Type :=
| NEW_USER
| NEW_AUCTION
| CLOSE_AUCTION
| NEW_BID
| UNKNOWN_COMMAND.

(** [callback] is the resolver of the promise handed to the web server, by
    its number; [None] is [null]. *)
Record LogRecord : Type := mkLogRecord {
  term : Z;
  commandType : CommandType;
  logData : string;
  callback : option nat
}.

(** [log[i]]: a plain property read, [undefined] outside [0 .. length-1]. *)
Definition log_get (l : list LogRecord) (i : Z) : option LogRecord :=
  if i <? 0 then None else nth_error l (Z.to_nat i).

(** [log.at(i)]: a negative index counts from the end. *)
Definition log_at (l : list LogRecord) (i : Z) : option LogRecord :=
  if i <? 0 then log_get l (Z.of_nat (List.length l) + i) else log_get l i.

(** [log.slice(start)]. *)
Definition log_slice (l : list LogRecord) (start : jsnum) : list LogRecord :=
  match start with
  | Num z =>
      if z <? 0 then skipn (Z.to_nat (Z.max (Z.of_nat (List.length l) + z) 0)) l
      else skipn (Z.to_nat z) l
  | _ => l
  end.

(** [log.at(-1) != null ? log.at(-1).term : null]. *)
Definition lastLogTermOf (l : list LogRecord) : option Z :=
  match log_at l (-1) with
  | Some r => Some (term r)
  | None => None
  end.

(** [arr[i] = v] for an index inside the array. *)
Fixpoint list_update {A} (l : list A) (i : nat) (v : A) : list A :=
  match l, i with
  | [], _ => []
  | _ :: r, O => v :: r
  | x :: r, S i' => x :: list_update r i' v
  end.

(** ** Messages *)

(** [AppendEntriesParameters]: one object for requests and responses. *)
Module AE.
Record Parameters : Type := mk {
  senderId : NodeId;
  term : Z;
  isResponse : bool;
  messageNum : Z;
  prevLogIndex : Z;
  prevLogTerm : option Z;
  entries : list LogRecord;
  leaderCommit : jsnum;
  success : bool
}.
End AE.

(** [RequestVoteParameters]. *)
Module RV.
Record Parameters : Type := mk {
  senderId : NodeId;
  term : Z;
  isResponse : bool;
  lastLogIndex : Z;
  lastLogTerm : option Z;
  voteGranted : bool
}.
End RV.

(** ** The node *)

Inductive State : Type := FOLLOWER | CANDIDATE | LEADER.

(** The constructor's arguments, which no method changes.  [otherNodes]
    pairs an address with a node id. *)
Record Config : Type := mkConfig {
  id : NodeId;
  minLeaderTimeout : Z;
  maxLeaderTimeout : Z;
  minElectionTimeout : Z;
  maxElectionTimeout : Z;
  minElectionDelay : Z;
  heartbeatTimeout : Z;
  otherNodes : list (string * NodeId);
  disabledDB : bool
}.

Record RaftNode : Type := mkRaftNode {
  config : Config;
  state : State;
  currentTerm : Z;
  votedFor : option NodeId;
  votesGathered : Z;
  log : list LogRecord;
  commitIndex : jsnum;
  lastApplied : Z;
  nextIndex : JSMap jsnum;
  matchIndex : JSMap jsnum;
  lastSent : JSMap jsnum;
  currentLeaderId : option NodeId;
  heartbeatTimeouts : JSMap unit;
  leaderTimeout : bool;
  electionTimeout : bool;
  nodeIdToMessageNum : JSMap jsnum;
  lastMessageNum : Z
}.

(** [clusterSize = otherNodes.size + 1]. *)
Definition clusterSize (n : RaftNode) : Z :=
  Z.of_nat (List.length (otherNodes (config n))) + 1.

(** The keys of [sockets]: [start] opens one socket per configured node. *)
Definition sockets (n : RaftNode) : JSMap unit :=
  fold_left (fun m p => Map_set (snd p) tt m) (otherNodes (config n)) [].

(** [sockets.get(id)]: the socket is named by the node it leads to. *)
Definition socketOf (n : RaftNode) (p : NodeId) : option NodeId :=
  match Map_get (sockets n) p with
  | Some _ => Some p
  | None => None
  end.

(** Field assignments. *)
Definition set_state (v : State) (n : RaftNode) : RaftNode :=
  mkRaftNode (config n) v (currentTerm n) (votedFor n) (votesGathered n) (log n)
    (commitIndex n) (lastApplied n) (nextIndex n) (matchIndex n) (lastSent n)
    (currentLeaderId n) (heartbeatTimeouts n) (leaderTimeout n) (electionTimeout n)
    (nodeIdToMessageNum n) (lastMessageNum n).

Definition set_currentTerm (v : Z) (n : RaftNode) : RaftNode :=
  mkRaftNode (config n) (state n) v (votedFor n) (votesGathered n) (log n)
    (commitIndex n) (lastApplied n) (nextIndex n) (matchIndex n) (lastSent n)
    (currentLeaderId n) (heartbeatTimeouts n) (leaderTimeout n) (electionTimeout n)
    (nodeIdToMessageNum n) (lastMessageNum n).

Definition set_votedFor (v : option NodeId) (n : RaftNode) : RaftNode :=
  mkRaftNode (config n) (state n) (currentTerm n) v (votesGathered n) (log n)
    (commitIndex n) (lastApplied n) (nextIndex n) (matchIndex n) (lastSent n)
    (currentLeaderId n) (heartbeatTimeouts n) (leaderTimeout n) (electionTimeout n)
    (nodeIdToMessageNum n) (lastMessageNum n).

Definition set_votesGathered (v : Z) (n : RaftNode) : RaftNode :=
  mkRaftNode (config n) (state n) (currentTerm n) (votedFor n) v (log n)
    (commitIndex n) (lastApplied n) (nextIndex n) (matchIndex n) (lastSent n)
    (currentLeaderId n) (heartbeatTimeouts n) (leaderTimeout n) (electionTimeout n)
    (nodeIdToMessageNum n) (lastMessageNum n).

Definition set_log (v : list LogRecord) (n : RaftNode) : RaftNode :=
  mkRaftNode (config n) (state n) (currentTerm n) (votedFor n) (votesGathered n) v
    (commitIndex n) (lastApplied n) (nextIndex n) (matchIndex n) (lastSent n)
    (currentLeaderId n) (heartbeatTimeouts n) (leaderTimeout n) (electionTimeout n)
    (nodeIdToMessageNum n) (lastMessageNum n).

Definition set_commitIndex (v : jsnum) (n : RaftNode) : RaftNode :=
  mkRaftNode (config n) (state n) (currentTerm n) (votedFor n) (votesGathered n) (log n)
    v (lastApplied n) (nextIndex n) (matchIndex n) (lastSent n)
    (currentLeaderId n) (heartbeatTimeouts n) (leaderTimeout n) (electionTimeout n)
    (nodeIdToMessageNum n) (lastMessageNum n).

Definition set_lastApplied (v : Z) (n : RaftNode) : RaftNode :=
  mkRaftNode (config n) (state n) (currentTerm n) (votedFor n) (votesGathered n) (log n)
    (commitIndex n) v (nextIndex n) (matchIndex n) (lastSent n)
    (currentLeaderId n) (heartbeatTimeouts n) (leaderTimeout n) (electionTimeout n)
    (nodeIdToMessageNum n) (lastMessageNum n).

Definition set_nextIndex (v : JSMap jsnum) (n : RaftNode) : RaftNode :=
  mkRaftNode (config n) (state n) (currentTerm n) (votedFor n) (votesGathered n) (log n)
    (commitIndex n) (lastApplied n) v (matchIndex n) (lastSent n)
    (currentLeaderId n) (heartbeatTimeouts n) (leaderTimeout n) (electionTimeout n)
    (nodeIdToMessageNum n) (lastMessageNum n).

Definition set_matchIndex (v : JSMap jsnum) (n : RaftNode) : RaftNode :=
  mkRaftNode (config n) (state n) (currentTerm n) (votedFor n) (votesGathered n) (log n)
    (commitIndex n) (lastApplied n) (nextIndex n) v (lastSent n)
    (currentLeaderId n) (heartbeatTimeouts n) (leaderTimeout n) (electionTimeout n)
    (nodeIdToMessageNum n) (lastMessageNum n).

Definition set_lastSent (v : JSMap jsnum) (n : RaftNode) : RaftNode :=
  mkRaftNode (config n) (state n) (currentTerm n) (votedFor n) (votesGathered n) (log n)
    (commitIndex n) (lastApplied n) (nextIndex n) (matchIndex n) v
    (currentLeaderId n) (heartbeatTimeouts n) (leaderTimeout n) (electionTimeout n)
    (nodeIdToMessageNum n) (lastMessageNum n).

Definition set_currentLeaderId (v : option NodeId) (n : RaftNode) : RaftNode :=
  mkRaftNode (config n) (state n) (currentTerm n) (votedFor n) (votesGathered n) (log n)
    (commitIndex n) (lastApplied n) (nextIndex n) (matchIndex n) (lastSent n)
    v (heartbeatTimeouts n) (leaderTimeout n) (electionTimeout n)
    (nodeIdToMessageNum n) (lastMessageNum n).

Definition set_heartbeatTimeouts (v : JSMap unit) (n : RaftNode) : RaftNode :=
  mkRaftNode (config n) (state n) (currentTerm n) (votedFor n) (votesGathered n) (log n)
    (commitIndex n) (lastApplied n) (nextIndex n) (matchIndex n) (lastSent n)
    (currentLeaderId n) v (leaderTimeout n) (electionTimeout n)
    (nodeIdToMessageNum n) (lastMessageNum n).

Definition set_leaderTimeout (v : bool) (n : RaftNode) : RaftNode :=
  mkRaftNode (config n) (state n) (currentTerm n) (votedFor n) (votesGathered n) (log n)
    (commitIndex n) (lastApplied n) (nextIndex n) (matchIndex n) (lastSent n)
    (currentLeaderId n) (heartbeatTimeouts n) v (electionTimeout n)
    (nodeIdToMessageNum n) (lastMessageNum n).

Definition set_electionTimeout (v : bool) (n : RaftNode) : RaftNode :=
  mkRaftNode (config n) (state n) (currentTerm n) (votedFor n) (votesGathered n) (log n)
    (commitIndex n) (lastApplied n) (nextIndex n) (matchIndex n) (lastSent n)
    (currentLeaderId n) (heartbeatTimeouts n) (leaderTimeout n) v
    (nodeIdToMessageNum n) (lastMessageNum n).

Definition set_nodeIdToMessageNum (v : JSMap jsnum) (n : RaftNode) : RaftNode :=
  mkRaftNode (config n) (state n) (currentTerm n) (votedFor n) (votesGathered n) (log n)
    (commitIndex n) (lastApplied n) (nextIndex n) (matchIndex n) (lastSent n)
    (currentLeaderId n) (heartbeatTimeouts n) (leaderTimeout n) (electionTimeout n)
    v (lastMessageNum n).

Definition set_lastMessageNum (v : Z) (n : RaftNode) : RaftNode :=
  mkRaftNode (config n) (state n) (currentTerm n) (votedFor n) (votesGathered n) (log n)
    (commitIndex n) (lastApplied n) (nextIndex n) (matchIndex n) (lastSent n)
    (currentLeaderId n) (heartbeatTimeouts n) (leaderTimeout n) (electionTimeout n)
    (nodeIdToMessageNum n) v.

(** ** Calls to the collaborators *)

Inductive Timer : Type :=
| LeaderTimer
| ElectionTimer
| HeartbeatTimer (p : NodeId).

(** One constructor per method of the RPC manager, the web server manager,
    the database manager and the timer service that the node calls.  A
    socket argument is [sockets.get(senderId)]; [dbQuery] is the query of
    the database manager for a record ([queryAddNewUser], ...), whose
    promise the asynchronous [applyLogEntry] awaits; [callCallback] is
    [logEntry.callback(res)], with [None] for a [null] result;
    [rejectPromise] is an exception thrown inside an asynchronous method,
    which rejects its promise instead of reaching the caller. *)
Inductive Effect : Type :=
| sendReplicationResponse (socket : option NodeId) (term : Z) (success : bool)
    (commitIndex : jsnum) (lastApplied : Z)
| sendReplicationTo (socket : option NodeId) (messageNum : jsnum) (term : Z)
    (prevLogIndex : jsnum) (prevLogTerm : option Z) (entries : list LogRecord)
    (leaderCommit : jsnum)
| sendReplication (messageNum : Z) (term : Z) (prevLogIndex : Z)
    (prevLogTerm : option Z) (entries : list LogRecord) (leaderCommit : jsnum)
| sendVote (socket : option NodeId) (term : Z) (voteGranted : bool)
| sendElectionNotice (term : Z) (lastLogIndex : Z) (lastLogTerm : option Z)
| disconnectSockets
| clearTimeout (t : Timer)
| setTimeout (t : Timer)
| dbQuery (c : CommandType) (data : string)
| callCallback (h : nat) (res : option string)
| rejectPromise (message : string).

(** ** The monad of the methods *)

Inductive Completion (A : Type) : Type :=
| Normal (a : A)
| Throw (message : string).
Arguments Normal {A} a.
Arguments Throw {A} message.

Record Outcome (A : Type) : Type := mkOutcome {
  completion : Completion A;
  node : RaftNode;
  effects : list Effect
}.

Definition M (A : Type) : Type := RaftNode -> Outcome A.

Definition ret {A} (a : A) : M A := fun n => mkOutcome (Normal a) n [].

Definition bind {A B} (m : M A) (k : A -> M B) : M B := fun n =>
  let r := m n in
  match completion r with
  | Normal a =>
      let r' := k a (node r) in
      mkOutcome (completion r') (node r') (effects r ++ effects r')
  | Throw e => mkOutcome (Throw e) (node r) (effects r)
  end.

Definition this : M RaftNode := fun n => mkOutcome (Normal n) n [].
Definition assign (f : RaftNode -> RaftNode) : M unit :=
  fun n => mkOutcome (Normal tt) (f n) [].
Definition call (e : Effect) : M unit := fun n => mkOutcome (Normal tt) n [e].
Definition throw {A} (message : string) : M A :=
  fun n => mkOutcome (Throw message) n [].
Definition break : M unit := ret tt.

Notation "x <- m ;; k" := (bind m (fun x => k))
  (at level 61, m at next level, right associativity).
Notation "m ;; k" := (bind m (fun _ => k))
  (at level 61, right associativity).

(** [forEach] over the elements of an array or the keys of a map. *)
Fixpoint forEach {A} (l : list A) (body : A -> M unit) : M unit :=
  match l with
  | [] => ret tt
  | x :: r => body x ;; forEach r body
  end.

(** ** Timers

    A timer is armed by a call to [setTimeout] and stopped by a call to
    [clearTimeout]; the interval, which the source draws with
    [Math.random] between the two bounds of the configuration, is not part
    of the recorded call. *)

Definition stopLeaderTimeout : M unit :=
  call (clearTimeout LeaderTimer) ;;
  assign (set_leaderTimeout false).

Definition waitForLeaderTimeout : M unit :=
  call (setTimeout LeaderTimer) ;;
  assign (set_leaderTimeout true).

Definition resetLeaderTimeout : M unit :=
  stopLeaderTimeout ;;
  waitForLeaderTimeout.

Definition stopElectionTimeout : M unit :=
  call (clearTimeout ElectionTimer) ;;
  assign (set_electionTimeout false).

Definition waitForElectionTimeout : M unit :=
  call (setTimeout ElectionTimer) ;;
  assign (set_electionTimeout true).

Definition resetElectionTimeout : M unit :=
  stopElectionTimeout ;;
  waitForElectionTimeout.

Definition stopHeartbeatTimeout (nodeId : option NodeId) : M unit :=
  match nodeId with
  | Some p =>
      call (clearTimeout (HeartbeatTimer p)) ;;
      assign (fun n => set_heartbeatTimeouts (Map_delete p (heartbeatTimeouts n)) n)
  | None =>
      n <- this ;;
      forEach (Map_keys (sockets n)) (fun p => call (clearTimeout (HeartbeatTimer p))) ;;
      assign (set_heartbeatTimeouts [])
  end.

Definition armHeartbeat (p : NodeId) : M unit :=
  call (setTimeout (HeartbeatTimer p)) ;;
  assign (fun n => set_heartbeatTimeouts (Map_set p tt (heartbeatTimeouts n)) n).

Definition waitForHeartbeatTimeout (nodeId : option NodeId) : M unit :=
  n <- this ;;
  match state n with
  | FOLLOWER => throw "Cannot send heartbeat when in state FOLLOWER"
  | _ =>
      match nodeId with
      | Some p => armHeartbeat p
      | None => forEach (map snd (otherNodes (config n))) armHeartbeat
      end
  end.

Definition resetHeartbeatTimeout (nodeId : option NodeId) : M unit :=
  stopHeartbeatTimeout nodeId ;;
  waitForHeartbeatTimeout nodeId.

(** ** The applier *)

(** The end of [applyLogEntry], after the [switch]: the callback of the
    record is called with the result and set to [null].  It works on the
    record object that [applyLogEntry] read from the log. *)
Definition applyLogEntry_finish (logEntry : LogRecord) (res : option string)
  : list Effect * LogRecord :=
  match callback logEntry with
  | Some h =>
      ([callCallback h res],
       mkLogRecord (term logEntry) (commandType logEntry) (logData logEntry) None)
  | None => ([], logEntry)
  end.

(** The position that [log.at(index)] reads. *)
Definition at_position (l : list LogRecord) (index : Z) : nat :=
  Z.to_nat (if index <? 0 then Z.of_nat (List.length l) + index else index).

(** [applyLogEntry] is asynchronous and [applyLogEntries] does not await
    it: the call runs the body up to its first [await].  With the database
    disabled there is none and the body runs to its end; otherwise the body
    stops once the query is issued, and [applyLogEntry_finish] runs on the
    record when the database answers. *)
Definition applyLogEntry (index : Z) : M unit :=
  n <- this ;;
  match log_at (log n) index with
  | Some logEntry =>
      match commandType logEntry with
      | UNKNOWN_COMMAND => call (rejectPromise "Unknown command type")
      | c =>
          if negb (disabledDB (config n)) then
            call (dbQuery c (logData logEntry))
          else
            let (calls, logEntry') := applyLogEntry_finish logEntry None in
            forEach calls call ;;
            assign (set_log (list_update (log n) (at_position (log n) index) logEntry'))
      end
  | None => call (rejectPromise "Log entry is undefined")
  end.

(** [for (let i = first; i <= this.commitIndex; i++)], with [count] the
    number of indices from [first] to the commit index. *)
Fixpoint applyLogEntries_loop (count : nat) (i : Z) : M unit :=
  match count with
  | O => ret tt
  | S count' => applyLogEntry i ;; applyLogEntries_loop count' (i + 1)
  end.

Definition applyLogEntries : M unit :=
  n <- this ;;
  match commitIndex n with
  | Num c =>
      if c >? lastApplied n then
        applyLogEntries_loop (Z.to_nat (c - lastApplied n)) (lastApplied n + 1) ;;
        assign (set_lastApplied c)
      else ret tt
  | _ => ret tt
  end.

(** ** [onAppendEntriesMessage] *)

(** The body of [args.entries.forEach((e, i) => ...)] for the entry [e] whose
    place in the log is [newEntryIndex = args.prevLogIndex + i + 1]. *)
Definition appendEntry (newEntryIndex : Z) (e : LogRecord) : M unit :=
  n <- this ;;
  (match log_get (log n) newEntryIndex with
   | Some old =>
       if negb (term old =? term e) then
         assign (set_log (firstn (Z.to_nat newEntryIndex) (log n))) ;;
         n1 <- this ;;
         let newCommitIndex := Z.of_nat (List.length (log n1)) - 1 in
         assign (set_commitIndex (Num newCommitIndex)) ;;
         assign (set_lastApplied (Z.min newCommitIndex (lastApplied n1)))
       else ret tt
   | None => ret tt
   end) ;;
  assign (fun n => set_log (log n ++ [e]) n).

Fixpoint appendEntries_forEach (prevLogIndex : Z) (i : Z) (entries : list LogRecord)
  : M unit :=
  match entries with
  | [] => ret tt
  | e :: rest =>
      appendEntry (prevLogIndex + i + 1) e ;;
      appendEntries_forEach prevLogIndex (i + 1) rest
  end.

(** [if (args.term > this.currentTerm) { ... }]: contact from a more recent
    leader. *)
Definition onAppendEntries_newTerm (args : AE.Parameters) : M unit :=
  n <- this ;;
  if AE.term args >? currentTerm n then
    (match state n with
     | LEADER => stopHeartbeatTimeout None
     | CANDIDATE => stopHeartbeatTimeout None ;; stopElectionTimeout
     | FOLLOWER => ret tt
     end) ;;
    assign (set_state FOLLOWER) ;;
    assign (set_currentLeaderId
              (if AE.isResponse args then None else Some (AE.senderId args))) ;;
    assign (set_currentTerm (AE.term args)) ;;
    assign (set_lastMessageNum (-1)) ;;
    resetLeaderTimeout ;;
    call disconnectSockets
  else ret tt.

(** The accepted request, from [this.lastMessageNum = args.messageNum] on. *)
Definition onAppendEntries_accept (args : AE.Parameters) : M unit :=
  n <- this ;;
  assign (set_lastMessageNum (AE.messageNum args)) ;;
  (if Z.of_nat (List.length (AE.entries args)) >? 0 then
     appendEntries_forEach (AE.prevLogIndex args) 0 (AE.entries args)
   else ret tt) ;;
  n1 <- this ;;
  (if js_gt (AE.leaderCommit args) (commitIndex n1) then
     assign (set_commitIndex
               (match AE.leaderCommit args with
                | Num lc => Num (Z.min lc (Z.of_nat (List.length (log n1)) - 1))
                | _ => NaN
                end))
   else ret tt) ;;
  applyLogEntries ;;
  n2 <- this ;;
  call (sendReplicationResponse (socketOf n (AE.senderId args)) (currentTerm n2) true
          (commitIndex n2) (lastApplied n2)) ;;
  resetLeaderTimeout.

(** [case State.FOLLOWER]. *)
Definition onAppendEntries_follower (args : AE.Parameters) : M unit :=
  n <- this ;;
  let senderSocket := socketOf n (AE.senderId args) in
  if AE.isResponse args then break
  else if AE.messageNum args <=? lastMessageNum n then break
  else if AE.term args <? currentTerm n then
    call (sendReplicationResponse senderSocket (currentTerm n) false
            (commitIndex n) (lastApplied n))
  else if (AE.prevLogIndex args >=? 0)
          && match log_at (log n) (AE.prevLogIndex args) with
             | None => true
             | Some _ => false
             end
  then
    call (sendReplicationResponse senderSocket (currentTerm n) false
            (commitIndex n) (lastApplied n)) ;;
    resetLeaderTimeout
  else
    match currentLeaderId n with
    | None =>
        assign (set_currentLeaderId (Some (AE.senderId args))) ;;
        onAppendEntries_accept args
    | Some leader =>
        if negb (String.eqb leader (AE.senderId args)) then break
        else onAppendEntries_accept args
    end.

(** [case State.LEADER], [if (args.success) { ... }]. *)
Definition onAppendEntries_success (args : AE.Parameters) : M unit :=
  let p := AE.senderId args in
  assign (fun n => set_matchIndex (Map_set p (Map_num (lastSent n) p) (matchIndex n)) n) ;;
  assign (fun n => set_nextIndex
                     (Map_set p (js_add (Map_num (lastSent n) p) 1) (nextIndex n)) n) ;;
  assign (fun n => set_nodeIdToMessageNum
                     (Map_set p (js_add (Map_num (nodeIdToMessageNum n) p) 1)
                        (nodeIdToMessageNum n)) n) ;;
  n <- this ;;
  let prevLogIndex := js_add (Map_num (nextIndex n) p) (-1) in
  prevLogTerm <-
    (if js_ge0 prevLogIndex then
       match prevLogIndex with
       | Num i =>
           match log_get (log n) i with
           | Some r => ret (Some (term r))
           | None => throw "TypeError: Cannot read properties of undefined (reading 'term')"
           end
       | _ => ret None
       end
     else ret None) ;;
  let sortedIndexes := Array_sort (Map_values (matchIndex n)) in
  assign (set_commitIndex (Array_get sortedIndexes (clusterSize n / 2))) ;;
  n1 <- this ;;
  let missingEntries := log_slice (log n1) (Map_num (nextIndex n1) p) in
  (if Z.of_nat (List.length missingEntries) >? 0 then
     call (sendReplicationTo (socketOf n1 p) (Map_num (nodeIdToMessageNum n1) p)
             (currentTerm n1) prevLogIndex prevLogTerm missingEntries (commitIndex n1)) ;;
     assign (fun n => set_lastSent
                        (Map_set p (Num (Z.of_nat (List.length (log n)) - 1)) (lastSent n)) n) ;;
     resetHeartbeatTimeout (Some p)
   else ret tt) ;;
  applyLogEntries.

(** [case State.LEADER]. *)
Definition onAppendEntries_leader (args : AE.Parameters) : M unit :=
  n <- this ;;
  let p := AE.senderId args in
  if negb (AE.isResponse args) then
    call (sendReplicationResponse (socketOf n p) (currentTerm n) false
            (commitIndex n) (lastApplied n))
  else if AE.success args then onAppendEntries_success args
  else
    assign (fun n => set_nextIndex
                       (Map_set p (js_add (Map_num (nextIndex n) p) (-1)) (nextIndex n)) n) ;;
    resetHeartbeatTimeout (Some p).

(** [case State.CANDIDATE]. *)
Definition onAppendEntries_candidate (args : AE.Parameters) : M unit :=
  n <- this ;;
  if AE.isResponse args then break
  else
    call (sendReplicationResponse (socketOf n (AE.senderId args)) (currentTerm n) false
            (commitIndex n) (lastApplied n)).

Definition onAppendEntriesMessage (args : AE.Parameters) : M unit :=
  onAppendEntries_newTerm args ;;
  n <- this ;;
  match state n with
  | FOLLOWER => onAppendEntries_follower args
  | LEADER => onAppendEntries_leader args
  | CANDIDATE => onAppendEntries_candidate args
  end.

(** ** [onRequestVoteMessage] *)

(** [a == b] between a term that may be [undefined] and one that may be
    [null]: two numbers are compared, and [undefined == null] holds. *)
Definition loose_eq (a b : option Z) : bool :=
  match a, b with
  | Some x, Some y => x =? y
  | None, None => true
  | _, _ => false
  end.

(** [this.log[i]?.term]. *)
Definition termAt (l : list LogRecord) (i : Z) : option Z :=
  match log_get l i with
  | Some r => Some (term r)
  | None => None
  end.

(** [if (args.term > this.currentTerm) { ... }]: contact from a more recent
    candidate. *)
Definition onRequestVote_newTerm (args : RV.Parameters) : M unit :=
  n <- this ;;
  if RV.term args >? currentTerm n then
    (match state n with
     | LEADER => stopHeartbeatTimeout None
     | CANDIDATE => stopHeartbeatTimeout None ;; stopElectionTimeout
     | FOLLOWER => ret tt
     end) ;;
    assign (set_state FOLLOWER) ;;
    assign (set_votedFor None) ;;
    assign (set_currentLeaderId None) ;;
    assign (set_currentTerm (RV.term args)) ;;
    assign (set_lastMessageNum (-1)) ;;
    resetLeaderTimeout ;;
    call disconnectSockets
  else ret tt.

(** The condition under which a follower casts its vote. *)
Definition canVoteFor (n : RaftNode) (args : RV.Parameters) : bool :=
  match votedFor n with
  | None =>
      (Z.of_nat (List.length (log n)) <? RV.lastLogIndex args + 1)
      || loose_eq (termAt (log n) (RV.lastLogIndex args)) (RV.lastLogTerm args)
  | Some _ => false
  end.

(** [case State.FOLLOWER]. *)
Definition onRequestVote_follower (args : RV.Parameters) : M unit :=
  n <- this ;;
  let senderSocket := socketOf n (RV.senderId args) in
  if RV.isResponse args then break
  else if canVoteFor n args then
    assign (set_votedFor (Some (RV.senderId args))) ;;
    call (sendVote senderSocket (currentTerm n) true) ;;
    resetLeaderTimeout
  else
    call (sendVote senderSocket (currentTerm n) false).

(** [case State.LEADER]. *)
Definition onRequestVote_leader (args : RV.Parameters) : M unit :=
  n <- this ;;
  if RV.isResponse args then break
  else call (sendVote (socketOf n (RV.senderId args)) (currentTerm n) false).

(** The candidate has the majority: it becomes the leader. *)
Definition becomeLeader : M unit :=
  assign (set_state LEADER) ;;
  n <- this ;;
  forEach (Map_keys (nodeIdToMessageNum n))
    (fun p => assign (fun n => set_nodeIdToMessageNum
                                 (Map_set p (Num 0) (nodeIdToMessageNum n)) n)) ;;
  forEach (Map_keys (sockets n))
    (fun nodeId =>
       assign (fun n => set_matchIndex (Map_set nodeId (Num (-1)) (matchIndex n)) n) ;;
       assign (fun n => set_nextIndex
                          (Map_set nodeId (Num (Z.of_nat (List.length (log n))))
                             (nextIndex n)) n) ;;
       assign (fun n => set_lastSent
                          (Map_set nodeId (Num (Z.of_nat (List.length (log n)) - 1))
                             (lastSent n)) n)) ;;
  call (sendReplication 0 (currentTerm n) (Z.of_nat (List.length (log n)) - 1)
          (lastLogTermOf (log n)) [] (commitIndex n)) ;;
  resetHeartbeatTimeout None ;;
  stopElectionTimeout.

(** [case State.CANDIDATE]. *)
Definition onRequestVote_candidate (args : RV.Parameters) : M unit :=
  n <- this ;;
  if RV.isResponse args then
    stopHeartbeatTimeout (Some (RV.senderId args)) ;;
    if RV.voteGranted args then
      assign (fun n => set_votesGathered (votesGathered n + 1) n) ;;
      n1 <- this ;;
      if votesGathered n1 >? clusterSize n1 / 2 then becomeLeader else ret tt
    else ret tt
  else call (sendVote (socketOf n (RV.senderId args)) (currentTerm n) false).

Definition onRequestVoteMessage (args : RV.Parameters) : M unit :=
  onRequestVote_newTerm args ;;
  n <- this ;;
  match state n with
  | FOLLOWER => onRequestVote_follower args
  | LEADER => onRequestVote_leader args
  | CANDIDATE => onRequestVote_candidate args
  end.

(** ** Elections *)

Definition startNewElection : M unit :=
  assign (set_leaderTimeout false) ;;
  assign (set_state CANDIDATE) ;;
  assign (fun n => set_currentTerm (currentTerm n + 1) n) ;;
  assign (set_currentLeaderId None) ;;
  assign (set_votesGathered 1) ;;
  n <- this ;;
  call (sendElectionNotice (currentTerm n) (Z.of_nat (List.length (log n)) - 1)
          (lastLogTermOf (log n))) ;;
  stopLeaderTimeout ;;
  resetElectionTimeout ;;
  resetHeartbeatTimeout None.

(** The callbacks that [waitForLeaderTimeout] and [waitForElectionTimeout]
    give to [setTimeout].  The timer service runs them at a time [now] of
    its clock; the node itself never reads the clock. *)
Definition onLeaderTimeout (now : Z) : M unit := startNewElection.
Definition onElectionTimeout (now : Z) : M unit := startNewElection.

(** ** Dispatch

    [start] registers the two handlers on the protocol server, one per RPC
    type. *)
Inductive Message : Type :=
| APPENDENTRIES (args : AE.Parameters)
| REQUESTVOTE (args : RV.Parameters).

Definition onMessage (m : Message) : M unit :=
  match m with
  | APPENDENTRIES args => onAppendEntriesMessage args
  | REQUESTVOTE args => onRequestVoteMessage args
  end.

Definition termOf (m : Message) : Z :=
  match m with
  | APPENDENTRIES args => AE.term args
  | REQUESTVOTE args => RV.term args
  end.

(** ** Vocabulary of the properties *)

(** A method leaves a part [f] of the node as it found it. *)
Definition preserves {X A : Type} (f : RaftNode -> X) (m : M A) : Prop :=
  forall n, f (node (m n)) = f n.

(** A method returns: it never throws. *)
Definition returns {A : Type} (m : M A) : Prop :=
  forall n, exists a, completion (m n) = Normal a.

(** The outcome of a handler that ignores its message. *)
Definition ignored (n : RaftNode) : Outcome unit := mkOutcome (Normal tt) n [].

(** Sorting in non-decreasing numerical order, as the specification words
    the commit rule; values that are not numbers go last. *)
Definition numeric_le (x y : jsnum) : bool :=
  match x, y with
  | Num a, Num b => a <=? b
  | Num _, _ => true
  | _, Num _ => false
  | _, _ => true
  end.

Fixpoint numeric_insert (x : jsnum) (l : list jsnum) : list jsnum :=
  match l with
  | [] => [x]
  | y :: r => if numeric_le x y then x :: y :: r else y :: numeric_insert x r
  end.

Definition sort_numerically (l : list jsnum) : list jsnum :=
  fold_right numeric_insert [] l.

(** The commit index that the specification's commit rule gives for the
    match indices of a leader. *)
Definition commitIndex_numeric (n : RaftNode) : jsnum :=
  Array_get (sort_numerically (Map_values (matchIndex n))) (clusterSize n / 2).

(** A reply [success = true] is among the calls. *)
Definition is_success_reply (e : Effect) : bool :=
  match e with
  | sendReplicationResponse _ _ true _ _ => true
  | _ => false
  end.

Definition repliesSuccess (es : list Effect) : bool := existsb is_success_reply es.

(** A method replies [success = true] whatever the node it starts from. *)
Definition acknowledges {A : Type} (m : M A) : Prop :=
  forall n, repliesSuccess (effects (m n)) = true.

(** The node after a sequence of messages, and the message numbers of the
    AppendEntries requests it accepted, in the order of arrival. *)
Fixpoint receiveAll (ms : list Message) (n : RaftNode) : RaftNode * list Z :=
  match ms with
  | [] => (n, [])
  | m :: rest =>
      let r := onMessage m n in
      let (n', nums) := receiveAll rest (node r) in
      (n', match m with
           | APPENDENTRIES args =>
               if repliesSuccess (effects r) then AE.messageNum args :: nums else nums
           | REQUESTVOTE _ => nums
           end)
  end.

(** The records at the indices [(lastApplied, c]] of the log. *)
Definition toApply (n : RaftNode) (c : Z) : list LogRecord :=
  firstn (Z.to_nat (c - lastApplied n)) (skipn (Z.to_nat (lastApplied n + 1)) (log n)).

(** The query that [applyLogEntry] issues for a record. *)
Definition queryOf (e : LogRecord) : Effect := dbQuery (commandType e) (logData e).

(** A record whose callback has been called and cleared. *)
Definition fulfilled (e : LogRecord) : LogRecord := snd (applyLogEntry_finish e None).

(** The node after a sequence of RequestVote messages. *)
Definition receiveVotes (ms : list RV.Parameters) (n : RaftNode) : RaftNode :=
  fold_left (fun n m => node (onRequestVoteMessage m n)) ms n.

(** The nodes that granted their vote in a sequence of responses. *)
Definition voters (ms : list RV.Parameters) : list NodeId :=
  nodup string_dec (map RV.senderId (filter RV.voteGranted ms)).

(** ** Sample nodes and messages *)

Definition sampleRecord (t : Z) : LogRecord := mkLogRecord t NEW_BID "bid" None.

Definition clusterOfThree : Config :=
  mkConfig "A" 150 300 150 300 1000 50 [("hostB", "B"); ("hostC", "C")] false.

Definition clusterOfFive : Config :=
  mkConfig "A" 150 300 150 300 1000 50
    [("hostB", "B"); ("hostC", "C"); ("hostD", "D"); ("hostE", "E")] false.

(** A leader of three nodes with eleven records; it last sent index 9 to B
    and knows index 10 to be on C. *)
Definition leaderOfThree : RaftNode :=
  mkRaftNode clusterOfThree LEADER 2 None 2 (repeat (sampleRecord 1) 11) (Num 8) 8
    [("B", Num 9); ("C", Num 11)] [("B", Num 8); ("C", Num 10)]
    [("B", Num 9); ("C", Num 10)] None [("B", tt); ("C", tt)] false false
    [("B", Num 4); ("C", Num 5)] (-1).

Definition successFrom (p : NodeId) (t : Z) : AE.Parameters :=
  AE.mk p t true 0 0 None [] Undefined true.

(** A node of five that has just won the election of term 2 with four
    committed records in its log. *)
Definition leaderOfFive : RaftNode :=
  mkRaftNode clusterOfFive LEADER 2 None 3 (repeat (sampleRecord 1) 4) (Num 3) 3
    [("B", Num 4); ("C", Num 4); ("D", Num 4); ("E", Num 4)]
    [("B", Num (-1)); ("C", Num (-1)); ("D", Num (-1)); ("E", Num (-1))]
    [("B", Num 3); ("C", Num 3); ("D", Num 3); ("E", Num 3)]
    None [("B", tt); ("C", tt); ("D", tt); ("E", tt)] false false
    [("B", Num 0); ("C", Num 0); ("D", Num 0); ("E", Num 0)] (-1).

(** A follower of B in term 3 with three records of term 1, of which
    [applied + 1] are committed and applied. *)
Definition followerOfB (applied : Z) : RaftNode :=
  mkRaftNode clusterOfThree FOLLOWER 3 (Some "B") 0 (repeat (sampleRecord 1) 3)
    (Num applied) applied [] [] [] (Some "B") [] true false
    [("B", Num 0); ("C", Num 0)] 4.

Definition request (p : NodeId) (t messageNum prevLogIndex : Z) (prevLogTerm : option Z)
    (entries : list LogRecord) (leaderCommit : Z) : AE.Parameters :=
  AE.mk p t false messageNum prevLogIndex prevLogTerm entries (Num leaderCommit) false.

(** A follower in term 4 that has not voted, with records of the given
    terms. *)
Definition voterOfTerm4 (terms : list Z) : RaftNode :=
  mkRaftNode clusterOfThree FOLLOWER 4 None 0 (map sampleRecord terms)
    (Num 2) 2 [] [] [] None [] true false [("B", Num 0); ("C", Num 0)] (-1).

Definition voteRequest (p : NodeId) (t lastLogIndex : Z) (lastLogTerm : option Z)
  : RV.Parameters :=
  RV.mk p t false lastLogIndex lastLogTerm false.

Definition voteFrom (p : NodeId) (t : Z) : RV.Parameters :=
  RV.mk p t true 0 None true.

(** A candidate of five nodes in term 2 that holds its own vote only. *)
Definition candidateOfFive : RaftNode :=
  mkRaftNode clusterOfFive CANDIDATE 2 None 1 (repeat (sampleRecord 1) 2) (Num 1) 1
    [] [] [] None [("B", tt); ("C", tt); ("D", tt); ("E", tt)] false true
    [("B", Num 0); ("C", Num 0); ("D", Num 0); ("E", Num 0)] (-1).

(** A leader whose clients wait for the two records it has not applied
    yet, with the database enabled or disabled. *)
Definition waitingLeader (disabled : bool) : RaftNode :=
  mkRaftNode
    (mkConfig "A" 150 300 150 300 1000 50 [("hostB", "B"); ("hostC", "C")] disabled)
    LEADER 2 None 2
    [sampleRecord 1;
     mkLogRecord 2 NEW_USER "user" (Some 7%nat);
     mkLogRecord 2 NEW_AUCTION "auction" (Some 8%nat)]
    (Num 2) 0
    [("B", Num 3); ("C", Num 3)] [("B", Num 2); ("C", Num 2)]
    [("B", Num 2); ("C", Num 2)] None [("B", tt); ("C", tt)] false false
    [("B", Num 4); ("C", Num 5)] (-1).

(** ** The heartbeat of the leader *)

(** The callback [sendHeartbeat] that [waitForHeartbeatTimeout] gives to
    [setTimeout] when it is called by a leader, for the node [nodeId]. *)
Definition sendHeartbeat_leader (nodeId : NodeId) : M unit :=
  n <- this ;;
  let missingEntries := log_slice (log n) (Map_num (nextIndex n) nodeId) in
  let prevLogIndex := js_add (Map_num (nextIndex n) nodeId) (-1) in
  prevLogTerm <-
    (if js_ge0 prevLogIndex then
       match prevLogIndex with
       | Num i =>
           match log_get (log n) i with
           | Some r => ret (Some (term r))
           | None => throw "TypeError: Cannot read properties of undefined (reading 'term')"
           end
       | _ => ret None
       end
     else ret None) ;;
  call (sendReplicationTo (socketOf n nodeId) (Map_num (nodeIdToMessageNum n) nodeId)
          (currentTerm n) prevLogIndex prevLogTerm missingEntries (commitIndex n)) ;;
  assign (fun n => set_lastSent
                     (Map_set nodeId (Num (Z.of_nat (List.length (log n)) - 1)) (lastSent n)) n) ;;
  resetHeartbeatTimeout (Some nodeId).

(** ** Vocabulary of the further properties *)

(** A method keeps a property of the node once it holds. *)
Definition keeps {A : Type} (P : RaftNode -> Prop) (m : M A) : Prop :=
  forall n, P n -> P (node (m n)).

(** A method makes no call of the kind [bad]. *)
Definition makesNo {A : Type} (bad : Effect -> bool) (m : M A) : Prop :=
  forall n, filter bad (effects (m n)) = [].

(** What a record holds apart from its callback. *)
Definition content (e : LogRecord) : Z * CommandType * string :=
  (term e, commandType e, logData e).

(** The commit index is a number and the indices are in their order:
    [-1 <= lastApplied <= commitIndex <= log.length - 1]. *)
Definition withinLog (n : RaftNode) : Prop :=
  exists c, commitIndex n = Num c /\
            -1 <= lastApplied n /\ lastApplied n <= c /\
            c <= Z.of_nat (List.length (log n)) - 1.

(** The node and the calls after a sequence of messages, each handled in
    its turn. *)
Fixpoint deliver (ms : list Message) (n : RaftNode) : RaftNode * list Effect :=
  match ms with
  | [] => (n, [])
  | m :: rest =>
      let r := onMessage m n in
      let (n', es) := deliver rest (node r) in
      (n', effects r ++ es)
  end.

(** The votes granted among the calls. *)
Definition is_granted_vote (e : Effect) : bool :=
  match e with
  | sendVote _ _ true => true
  | _ => false
  end.

Definition grantedVotes (es : list Effect) : nat :=
  List.length (filter is_granted_vote es).

(** The AppendEntries response [success = false] of a node. *)
Definition failureFrom (p : NodeId) (t : Z) : AE.Parameters :=
  AE.mk p t true 0 0 None [] Undefined false.


(** The guards of [case State.FOLLOWER] that a request of the current term
    passes before its entries are put in the log. *)
Definition accepts (args : AE.Parameters) (n : RaftNode) : bool :=
  match state n with FOLLOWER => true | _ => false end
  && (AE.term args =? currentTerm n)
  && negb (AE.isResponse args)
  && (lastMessageNum n <? AE.messageNum args)
  && negb ((AE.prevLogIndex args >=? 0)
           && match log_at (log n) (AE.prevLogIndex args) with
              | None => true
              | Some _ => false
              end)
  && match currentLeaderId n with
     | None => true
     | Some leader => String.eqb leader (AE.senderId args)
     end.

(** A match index from -1 to 9: its decimal string has one digit, or is
    the string of -1. *)
Definition oneDigit (x : jsnum) : bool :=
  match x with
  | Num z => (-1 <=? z) && (z <=? 9)
  | _ => false
  end.

(** A leader of two nodes with three records, all of them on B. *)
Definition clusterOfTwo : Config :=
  mkConfig "A" 150 300 150 300 1000 50 [("hostB", "B")] false.

Definition leaderOfTwo : RaftNode :=
  mkRaftNode clusterOfTwo LEADER 2 None 2 (repeat (sampleRecord 1) 3) (Num (-1)) (-1)
    [("B", Num 3)] [("B", Num (-1))] [("B", Num 2)] None [("B", tt)] false false
    [("B", Num 0)] (-1).
(** * Properties *)

(** ** Sequencing *)

Lemma bind_node_normal {A B} (m : M A) (k : A -> M B) n a :
  completion (m n) = Normal a ->
  node (bind m k n) = node (k a (node (m n))).
Proof. intros H. unfold bind. rewrite H. reflexivity. Qed.

Lemma bind_effects_normal {A B} (m : M A) (k : A -> M B) n a :
  completion (m n) = Normal a ->
  effects (bind m k n) = effects (m n) ++ effects (k a (node (m n))).
Proof. intros H. unfold bind. rewrite H. reflexivity. Qed.

Lemma bind_completion_normal {A B} (m : M A) (k : A -> M B) n a :
  completion (m n) = Normal a ->
  completion (bind m k n) = completion (k a (node (m n))).
Proof. intros H. unfold bind. rewrite H. reflexivity. Qed.

(** ** Frame rules: what a method leaves alone *)

Section Frame.
Context {X : Type} (f : RaftNode -> X).

Lemma preserves_ret {A} (a : A) : preserves f (ret a).
Proof. intros n. reflexivity. Qed.

Lemma preserves_this : preserves f this.
Proof. intros n. reflexivity. Qed.

Lemma preserves_call e : preserves f (call e).
Proof. intros n. reflexivity. Qed.

Lemma preserves_throw {A} s : preserves f (@throw A s).
Proof. intros n. reflexivity. Qed.

Lemma preserves_assign g : (forall n, f (g n) = f n) -> preserves f (assign g).
Proof. intros H n. apply H. Qed.

Lemma preserves_bind {A B} (m : M A) (k : A -> M B) :
  preserves f m -> (forall a, preserves f (k a)) -> preserves f (bind m k).
Proof.
  intros Hm Hk n. unfold bind.
  destruct (completion (m n)) as [a|e]; cbn.
  - rewrite Hk. apply Hm.
  - apply Hm.
Qed.

Lemma preserves_forEach {A} (l : list A) body :
  (forall x, preserves f (body x)) -> preserves f (forEach l body).
Proof.
  intros H. induction l as [|x l IH]; cbn.
  - apply preserves_ret.
  - apply preserves_bind; auto.
Qed.
End Frame.

(** The rules for methods that do not throw. *)
Lemma returns_ret {A} (a : A) : returns (ret a).
Proof. intros n. exists a. reflexivity. Qed.

Lemma returns_this : returns this.
Proof. intros n. exists n. reflexivity. Qed.

Lemma returns_call e : returns (call e).
Proof. intros n. exists tt. reflexivity. Qed.

Lemma returns_assign g : returns (assign g).
Proof. intros n. exists tt. reflexivity. Qed.

Lemma returns_bind {A B} (m : M A) (k : A -> M B) :
  returns m -> (forall a, returns (k a)) -> returns (bind m k).
Proof.
  intros Hm Hk n. destruct (Hm n) as [a Ha].
  rewrite (bind_completion_normal _ _ _ Ha). apply Hk.
Qed.

Lemma returns_forEach {A} (l : list A) body :
  (forall x, returns (body x)) -> returns (forEach l body).
Proof.
  intros H. induction l as [|x l IH]; cbn.
  - apply returns_ret.
  - apply returns_bind; auto.
Qed.

Lemma returns_unit (m : M unit) n : returns m -> completion (m n) = Normal tt.
Proof. intros H. destruct (H n) as [[] Ha]. exact Ha. Qed.

(** A method that returns and is followed by a method that replies
    [success = true], replies so; and a reply made is not taken back. *)
Lemma acknowledges_after {A B} (m : M A) (k : A -> M B) :
  returns m -> (forall a, acknowledges (k a)) -> acknowledges (bind m k).
Proof.
  intros Hm Hk n. destruct (Hm n) as [a Ha].
  rewrite (bind_effects_normal _ _ _ Ha).
  unfold repliesSuccess. rewrite existsb_app. rewrite orb_true_iff. right. apply Hk.
Qed.

Lemma acknowledges_call {B} s t c a (k : unit -> M B) :
  acknowledges (bind (call (sendReplicationResponse s t true c a)) k).
Proof. intros n. reflexivity. Qed.

(** Every goal [preserves f m] over a method built from the primitives. *)
Ltac frame_step :=
  match goal with
  | |- preserves _ (bind _ _) => apply preserves_bind; [|intros ?]
  | |- preserves _ (ret _) => apply preserves_ret
  | |- preserves _ break => apply preserves_ret
  | |- preserves _ this => apply preserves_this
  | |- preserves _ (call _) => apply preserves_call
  | |- preserves _ (throw _) => apply preserves_throw
  | |- preserves _ (assign _) =>
      apply preserves_assign; intros ?; cbv beta; first [reflexivity | solve [auto]]
  | |- preserves _ (forEach _ _) => apply preserves_forEach; intros ?
  | |- preserves _ (if ?b then _ else _) => destruct b
  | |- preserves _ (match ?x with _ => _ end) => destruct x
  | |- preserves _ (let (_, _) := ?x in _) => destruct x
  end.

Ltac frame := repeat frame_step.

Ltac returns_step :=
  match goal with
  | |- returns (bind _ _) => apply returns_bind; [|intros ?]
  | |- returns (ret _) => apply returns_ret
  | |- returns break => apply returns_ret
  | |- returns this => apply returns_this
  | |- returns (call _) => apply returns_call
  | |- returns (assign _) => apply returns_assign
  | |- returns (forEach _ _) => apply returns_forEach; intros ?
  | |- returns (if ?b then _ else _) => destruct b
  | |- returns (match ?x with _ => _ end) => destruct x
  | |- returns (let (_, _) := ?x in _) => destruct x
  end.

Ltac returning := repeat returns_step.

Create HintDb methods.
#[local] Hint Unfold stopLeaderTimeout waitForLeaderTimeout resetLeaderTimeout
  stopElectionTimeout waitForElectionTimeout resetElectionTimeout
  stopHeartbeatTimeout armHeartbeat waitForHeartbeatTimeout resetHeartbeatTimeout
  applyLogEntry appendEntry : methods.

Ltac frame_methods := autounfold with methods; frame.
Ltac returning_methods := autounfold with methods; returning.

Lemma applyLogEntries_loop_frame {X} (f : RaftNode -> X) :
  (forall v n, f (set_log v n) = f n) ->
  forall count i, preserves f (applyLogEntries_loop count i).
Proof.
  intros Hlog count. induction count as [|count IH]; intros i; cbn.
  - apply preserves_ret.
  - apply preserves_bind; [|intros _; apply IH].
    frame_methods.
Qed.

Lemma applyLogEntries_frame {X} (f : RaftNode -> X) :
  (forall v n, f (set_log v n) = f n) ->
  (forall v n, f (set_lastApplied v n) = f n) ->
  preserves f applyLogEntries.
Proof.
  intros Hlog Happlied. unfold applyLogEntries.
  apply preserves_bind; [frame|]. intros n.
  destruct (commitIndex n); try apply preserves_ret.
  destruct (_ >? _); [|apply preserves_ret].
  apply preserves_bind; [|intros _; frame].
  apply applyLogEntries_loop_frame. exact Hlog.
Qed.

Lemma appendEntries_forEach_frame {X} (f : RaftNode -> X) :
  (forall v n, f (set_log v n) = f n) ->
  (forall v n, f (set_commitIndex v n) = f n) ->
  (forall v n, f (set_lastApplied v n) = f n) ->
  forall entries prevLogIndex i,
    preserves f (appendEntries_forEach prevLogIndex i entries).
Proof.
  intros Hlog Hcommit Happlied entries prevLogIndex.
  induction entries as [|e rest IH]; intros i; cbn.
  - apply preserves_ret.
  - apply preserves_bind; [|intros _; apply IH].
    frame_methods.
Qed.

(** An AppendEntries message never touches the vote of the node. *)
Lemma onAppendEntriesMessage_votedFor args :
  preserves votedFor (onAppendEntriesMessage args).
Proof.
  assert (Hloop : forall es p i,
             preserves votedFor (appendEntries_forEach p i es))
    by (intros; apply appendEntries_forEach_frame; reflexivity).
  assert (Happly : preserves votedFor applyLogEntries)
    by (apply applyLogEntries_frame; reflexivity).
  unfold onAppendEntriesMessage, onAppendEntries_newTerm, onAppendEntries_follower,
    onAppendEntries_leader, onAppendEntries_candidate, onAppendEntries_accept,
    onAppendEntries_success.
  frame_methods; auto.
Qed.

Lemma applyLogEntries_loop_returns count i : returns (applyLogEntries_loop count i).
Proof.
  revert i. induction count as [|count IH]; intros i; cbn.
  - apply returns_ret.
  - apply returns_bind; [|intros _; apply IH].
    returning_methods.
Qed.

Lemma applyLogEntries_returns : returns applyLogEntries.
Proof.
  unfold applyLogEntries. returning.
  apply applyLogEntries_loop_returns.
Qed.

Lemma appendEntries_forEach_returns entries prevLogIndex i :
  returns (appendEntries_forEach prevLogIndex i entries).
Proof.
  revert i. induction entries as [|e rest IH]; intros i; cbn.
  - apply returns_ret.
  - apply returns_bind; [|intros _; apply IH].
    returning_methods.
Qed.

(** ** Comparisons *)

Lemma gtb_false a b : a <= b -> (a >? b) = false.
Proof. intros H. rewrite Z.gtb_ltb. apply Z.ltb_ge. exact H. Qed.

Lemma gtb_true a b : b < a -> (a >? b) = true.
Proof. intros H. rewrite Z.gtb_ltb. apply Z.ltb_lt. exact H. Qed.

Lemma geb_true a b : b <= a -> (a >=? b) = true.
Proof. intros H. rewrite Z.geb_leb. apply Z.leb_le. exact H. Qed.

Lemma outcome_eta {A} (r : Outcome A) :
  mkOutcome (completion r) (node r) (effects r) = r.
Proof. destruct r. reflexivity. Qed.

Lemma bind_this {A} (k : RaftNode -> M A) n : bind this k n = k n n.
Proof. unfold bind. cbn. apply outcome_eta. Qed.

Lemma bind_assign {A} g (k : unit -> M A) n : bind (assign g) k n = k tt (g n).
Proof. unfold bind. cbn. apply outcome_eta. Qed.

(** A message of the current term or of an older one goes straight to the
    case of the current state. *)
Lemma onAppendEntriesMessage_same_term args n :
  AE.term args <= currentTerm n ->
  onAppendEntriesMessage args n =
  match state n with
  | FOLLOWER => onAppendEntries_follower args n
  | LEADER => onAppendEntries_leader args n
  | CANDIDATE => onAppendEntries_candidate args n
  end.
Proof.
  intros H. unfold onAppendEntriesMessage, onAppendEntries_newTerm.
  unfold bind at 1. cbn. rewrite (gtb_false H). cbn.
  destruct (state n); apply outcome_eta.
Qed.

Lemma onRequestVoteMessage_same_term args n :
  RV.term args <= currentTerm n ->
  onRequestVoteMessage args n =
  match state n with
  | FOLLOWER => onRequestVote_follower args n
  | LEADER => onRequestVote_leader args n
  | CANDIDATE => onRequestVote_candidate args n
  end.
Proof.
  intros H. unfold onRequestVoteMessage, onRequestVote_newTerm.
  unfold bind at 1. cbn. rewrite (gtb_false H). cbn.
  destruct (state n); apply outcome_eta.
Qed.

(** ** The commit index of the leader *)

(** Claim C1.  The leader's commit index after a successful response is
    claimed to be the element at position floor(clusterSize/2) of the match
    indices sorted numerically.  The source sorts with [sort()], which
    compares the decimal strings: on a leader of three nodes whose match
    indices become 9 (for B) and 10 (for C) the sorted array is [10, 9], the
    commit index becomes 9, and the numerical rule gives 10. *)
Theorem commitIndex_sorted_as_strings :
  let r := onAppendEntriesMessage (successFrom "B" 2) leaderOfThree in
  completion r = Normal tt /\
  matchIndex (node r) = [("B", Num 9); ("C", Num 10)] /\
  Array_sort (Map_values (matchIndex (node r))) = [Num 10; Num 9] /\
  commitIndex (node r) = Num 9 /\
  commitIndex_numeric (node r) = Num 10.
Proof. vm_compute. repeat split. Qed.

(** Claim C2.  The commit index and the applied index are claimed never
    to decrease (the commit index save for a truncation of the log).  A
    leader of five nodes that holds commit index 3 takes the first
    successful response of its term: the sorted match indices are
    [-1, -1, -1, 3], the commit index becomes -1, and the log is untouched.
    A follower that has applied index 2 and receives a conflicting entry for
    index 1 lowers its applied index to 0. *)
Theorem commitIndex_and_lastApplied_decrease :
  (let r := onAppendEntriesMessage (successFrom "B" 2) leaderOfFive in
   completion r = Normal tt /\
   commitIndex leaderOfFive = Num 3 /\
   commitIndex (node r) = Num (-1) /\
   log (node r) = log leaderOfFive) /\
  (let r := onAppendEntriesMessage
              (request "B" 3 5 0 (Some 1) [sampleRecord 2] 0) (followerOfB 2) in
   completion r = Normal tt /\
   lastApplied (followerOfB 2) = 2 /\
   lastApplied (node r) = 0).
Proof. vm_compute. repeat split. Qed.

(** ** A newer term in an AppendEntries message *)

(** Claim C3.  An AppendEntries message of a newer term is claimed to reset
    [votedFor] along with the other fields.  A follower of term 3 that
    voted for B takes a request of term 5 from C: it adopts the term and the
    leader, and its vote is still B.  (The block for the newer term leaves
    [lastMessageNum] at -1; the request is then accepted and sets it to its
    own number.) *)
Theorem newer_AppendEntries_keeps_votedFor :
  let n := followerOfB (-1) in
  let args := request "C" 5 0 2 (Some 1) [] (-1) in
  let r := onAppendEntriesMessage args n in
  votedFor n = Some "B" /\
  lastMessageNum (node (onAppendEntries_newTerm args n)) = -1 /\
  completion r = Normal tt /\
  state (node r) = FOLLOWER /\
  currentTerm (node r) = 5 /\
  currentLeaderId (node r) = Some "C" /\
  leaderTimeout (node r) = true /\
  votedFor (node r) = Some "B".
Proof. vm_compute. repeat split. Qed.

(** ** Conflicting entries *)

(** What [appendEntry] does with an entry that conflicts with the record at
    its index: the commit index is assigned, not bounded. *)
Lemma appendEntry_conflict n j e old :
  log_get (log n) j = Some old ->
  term old <> term e ->
  let r := appendEntry j e n in
  completion r = Normal tt /\
  effects r = [] /\
  log (node r) = firstn (Z.to_nat j) (log n) ++ [e] /\
  commitIndex (node r) = Num (Z.of_nat (List.length (firstn (Z.to_nat j) (log n))) - 1) /\
  lastApplied (node r) =
    Z.min (Z.of_nat (List.length (firstn (Z.to_nat j) (log n))) - 1) (lastApplied n).
Proof.
  intros Hget Hterm. unfold appendEntry. cbn. rewrite Hget.
  apply Z.eqb_neq in Hterm. rewrite Hterm. cbn. repeat split.
Qed.

(** Claim C4.  On a conflicting entry the commit index is claimed to be
    clamped to length(log) - 1.  A follower with three records of term 1,
    none of them committed (commit index -1), receives an entry of term 2
    for index 1 with leaderCommit = -1: the log is cut to length 1 and the
    entry appended, but the commit index is set to 0, above its old value,
    and the record at index 0 is applied (its query is issued). *)
Theorem conflict_raises_commitIndex :
  let n := followerOfB (-1) in
  let r := onAppendEntriesMessage
             (request "B" 3 5 0 (Some 1) [sampleRecord 2] (-1)) n in
  commitIndex n = Num (-1) /\
  completion r = Normal tt /\
  log (node r) = [sampleRecord 1; sampleRecord 2] /\
  commitIndex (node r) = Num 0 /\
  lastApplied (node r) = 0 /\
  effects r = [dbQuery NEW_BID "bid";
               sendReplicationResponse (Some "B") 3 true (Num 0) 0;
               clearTimeout LeaderTimer; setTimeout LeaderTimer].
Proof. vm_compute. repeat split. Qed.

(** ** Votes of a follower *)

Lemma canVoteFor_iff n args :
  canVoteFor n args = true <->
  votedFor n = None /\
  (Z.of_nat (List.length (log n)) < RV.lastLogIndex args + 1 \/
   loose_eq (termAt (log n) (RV.lastLogIndex args)) (RV.lastLogTerm args) = true).
Proof.
  unfold canVoteFor. destruct (votedFor n) as [p|].
  - split; [discriminate|]. intros [H _]. discriminate.
  - rewrite orb_true_iff, Z.ltb_lt. tauto.
Qed.

Lemma onRequestVote_follower_grants n args :
  RV.isResponse args = false ->
  canVoteFor n args = true ->
  onRequestVote_follower args n =
    mkOutcome (Normal tt)
      (set_leaderTimeout true (set_votedFor (Some (RV.senderId args)) n))
      [sendVote (socketOf n (RV.senderId args)) (currentTerm n) true;
       clearTimeout LeaderTimer; setTimeout LeaderTimer].
Proof.
  intros Hresp Hcan. unfold onRequestVote_follower. cbn.
  rewrite Hresp, Hcan. reflexivity.
Qed.

Lemma onRequestVote_follower_refuses n args :
  RV.isResponse args = false ->
  canVoteFor n args = false ->
  onRequestVote_follower args n =
    mkOutcome (Normal tt) n
      [sendVote (socketOf n (RV.senderId args)) (currentTerm n) false].
Proof.
  intros Hresp Hcan. unfold onRequestVote_follower. cbn.
  rewrite Hresp, Hcan. reflexivity.
Qed.

(** Claim C5, as amended.  A follower that receives a RequestVote request
    of its current term grants the vote (it records the sender in
    [votedFor], replies voteGranted = true and re-arms the leader timer)
    exactly when it has not voted and either its log has fewer than
    lastLogIndex + 1 records or the term of its record at lastLogIndex
    equals lastLogTerm (no record and no term, both, count as equal);
    otherwise it replies voteGranted = false and changes nothing.  In
    particular a follower with five records that has not voted refuses a
    request with lastLogIndex = 3 and lastLogTerm = 2 exactly when its
    record at index 3 has a term other than 2. *)
Theorem follower_vote_rule n args :
  state n = FOLLOWER ->
  RV.isResponse args = false ->
  RV.term args = currentTerm n ->
  let r := onRequestVoteMessage args n in
  let socket := socketOf n (RV.senderId args) in
  let granted :=
    r = mkOutcome (Normal tt)
          (set_leaderTimeout true (set_votedFor (Some (RV.senderId args)) n))
          [sendVote socket (currentTerm n) true;
           clearTimeout LeaderTimer; setTimeout LeaderTimer] in
  let refused := r = mkOutcome (Normal tt) n [sendVote socket (currentTerm n) false] in
  (granted <->
   votedFor n = None /\
   (Z.of_nat (List.length (log n)) < RV.lastLogIndex args + 1 \/
    loose_eq (termAt (log n) (RV.lastLogIndex args)) (RV.lastLogTerm args) = true)) /\
  (granted \/ refused) /\
  (List.length (log n) = 5%nat -> votedFor n = None ->
   RV.lastLogIndex args = 3 -> RV.lastLogTerm args = Some 2 ->
   (refused <-> termAt (log n) 3 <> Some 2)).
Proof.
  intros Hstate Hresp Hterm r socket granted refused.
  assert (Hr : r = onRequestVote_follower args n).
  { unfold r. rewrite onRequestVoteMessage_same_term by lia.
    rewrite Hstate. reflexivity. }
  assert (Hcases : (canVoteFor n args = true /\ granted /\ ~ refused) \/
                   (canVoteFor n args = false /\ refused /\ ~ granted)).
  { destruct (canVoteFor n args) eqn:Hcan; [left|right]; split; trivial.
    - assert (Hg : granted).
      { unfold granted. rewrite Hr. apply onRequestVote_follower_grants; assumption. }
      split; [exact Hg|]. unfold refused, granted in *. rewrite Hg. discriminate.
    - assert (Hf : refused).
      { unfold refused. rewrite Hr. apply onRequestVote_follower_refuses; assumption. }
      split; [exact Hf|]. unfold refused, granted in *. rewrite Hf. discriminate. }
  split; [|split].
  - rewrite <- canVoteFor_iff.
    destruct Hcases as [(Hcan & Hg & _)|(Hcan & _ & Hng)].
    + tauto.
    + rewrite Hcan. split; [tauto|discriminate].
  - tauto.
  - intros Hlen Hvoted Hindex Hlast.
    assert (Hcan : canVoteFor n args = true <-> termAt (log n) 3 = Some 2).
    { rewrite canVoteFor_iff, Hindex, Hlast, Hlen. cbn.
      split.
      - intros [_ [H|H]]; [lia|].
        destruct (termAt (log n) 3) as [t|]; [|discriminate].
        cbn in H. apply Z.eqb_eq in H. congruence.
      - intros H. split; [assumption|]. right. rewrite H. reflexivity. }
    destruct Hcases as [(Hc & _ & Hnf)|(Hc & Hf & _)].
    + split; [tauto|]. intros H. exfalso. apply H, Hcan, Hc.
    + split; [|tauto]. intros _ H. apply Hcan in H. congruence.
Qed.

Lemma follower_vote_rule_witness :
  onRequestVoteMessage (voteRequest "B" 4 3 (Some 2)) (voterOfTerm4 [1; 1; 1; 3; 3])
  = mkOutcome (Normal tt) (voterOfTerm4 [1; 1; 1; 3; 3]) [sendVote (Some "B") 4 false].
Proof.
  assert (H := follower_vote_rule (voterOfTerm4 [1; 1; 1; 3; 3])
                 (voteRequest "B" 4 3 (Some 2)) eq_refl eq_refl eq_refl).
  cbv zeta in H. destruct H as (_ & _ & H).
  apply (H eq_refl eq_refl eq_refl eq_refl). vm_compute. discriminate.
Defined.

(** Claim C5, as stated, fails: a follower with five records of terms 1,
    1, 1, 2 and 3 that has not voted in term 4 grants the request with
    lastLogIndex = 3 and lastLogTerm = 2, because its record at index 3 has
    term 2. *)
Lemma stale_log_gets_the_vote :
  ~ (forall n args,
        state n = FOLLOWER ->
        List.length (log n) = 5%nat ->
        lastLogTermOf (log n) = Some 3 ->
        votedFor n = None ->
        currentTerm n = 4 ->
        RV.isResponse args = false ->
        RV.term args = 4 ->
        RV.lastLogIndex args = 3 ->
        RV.lastLogTerm args = Some 2 ->
        effects (onRequestVoteMessage args n)
        = [sendVote (socketOf n (RV.senderId args)) (currentTerm n) false]).
Proof.
  intros H.
  specialize (H (voterOfTerm4 [1; 1; 1; 2; 3]) (voteRequest "B" 4 3 (Some 2))
                eq_refl eq_refl eq_refl eq_refl eq_refl eq_refl eq_refl eq_refl eq_refl).
  vm_compute in H. discriminate H.
Qed.

(** ** Requests that do not match the log *)

(** Claim C6, as amended.  A follower that receives an AppendEntries
    request of its current term with a message number above
    [lastMessageNum] and a prevLogIndex >= 0 at which its log has no
    record, replies success = false, re-arms the leader timer and leaves
    its log, commit index and applied index (and everything else) as they
    were. *)
Theorem missing_prevLogIndex_refused n args :
  state n = FOLLOWER ->
  AE.isResponse args = false ->
  AE.term args = currentTerm n ->
  lastMessageNum n < AE.messageNum args ->
  0 <= AE.prevLogIndex args ->
  Z.of_nat (List.length (log n)) <= AE.prevLogIndex args ->
  let r := onAppendEntriesMessage args n in
  r = mkOutcome (Normal tt) (set_leaderTimeout true n)
        [sendReplicationResponse (socketOf n (AE.senderId args)) (currentTerm n) false
           (commitIndex n) (lastApplied n);
         clearTimeout LeaderTimer; setTimeout LeaderTimer] /\
  log (node r) = log n /\
  commitIndex (node r) = commitIndex n /\
  lastApplied (node r) = lastApplied n.
Proof.
  intros Hstate Hresp Hterm Hnum Hprev Hlen r.
  assert (Hr : r = mkOutcome (Normal tt) (set_leaderTimeout true n)
        [sendReplicationResponse (socketOf n (AE.senderId args)) (currentTerm n) false
           (commitIndex n) (lastApplied n);
         clearTimeout LeaderTimer; setTimeout LeaderTimer]).
  { unfold r. rewrite onAppendEntriesMessage_same_term by lia. rewrite Hstate.
    unfold onAppendEntries_follower. cbn. rewrite Hresp.
    replace (AE.messageNum args <=? lastMessageNum n) with false
      by (symmetry; apply Z.leb_gt; lia).
    replace (AE.term args <? currentTerm n) with false
      by (symmetry; apply Z.ltb_ge; lia).
    rewrite (geb_true Hprev).
    assert (Hat : log_at (log n) (AE.prevLogIndex args) = None).
    { unfold log_at, log_get.
      replace (AE.prevLogIndex args <? 0) with false
        by (symmetry; apply Z.ltb_ge; lia).
      apply nth_error_None. lia. }
    rewrite Hat. reflexivity. }
  rewrite Hr. repeat split.
Qed.

Lemma missing_prevLogIndex_refused_witness :
  effects (onAppendEntriesMessage (request "B" 3 5 7 (Some 1) [] (-1)) (followerOfB (-1)))
  = [sendReplicationResponse (Some "B") 3 false (Num (-1)) (-1);
     clearTimeout LeaderTimer; setTimeout LeaderTimer].
Proof.
  assert (H := missing_prevLogIndex_refused (followerOfB (-1))
                 (request "B" 3 5 7 (Some 1) [] (-1)) eq_refl eq_refl eq_refl).
  cbv zeta in H. destruct H as (H & _).
  - reflexivity.
  - discriminate.
  - discriminate.
  - rewrite H. reflexivity.
Defined.

(** Claim C6, as stated, fails twice on a follower of B in term 3 whose
    three records have term 1.  A request of term 3 whose message number, 4,
    is not above [lastMessageNum] and whose prevLogIndex, 7, is not in the
    log gets no reply at all.  A request with prevLogIndex = 2 and
    prevLogTerm = 2, where the record at index 2 has term 1, is answered
    with success = true and its entry is appended. *)
Lemma refusal_not_for_every_request :
  (let n := followerOfB (-1) in
   let args := request "B" 3 4 7 (Some 1) [] (-1) in
   AE.term args = currentTerm n /\
   0 <= AE.prevLogIndex args /\
   log_at (log n) (AE.prevLogIndex args) = None /\
   onAppendEntriesMessage args n = ignored n) /\
  (let n := followerOfB (-1) in
   let args := request "B" 3 5 2 (Some 2) [sampleRecord 2] (-1) in
   let r := onAppendEntriesMessage args n in
   AE.term args = currentTerm n /\
   0 <= AE.prevLogIndex args /\
   termAt (log n) (AE.prevLogIndex args) = Some 1 /\
   AE.prevLogTerm args = Some 2 /\
   effects r = [sendReplicationResponse (Some "B") 3 true (Num (-1)) (-1);
                clearTimeout LeaderTimer; setTimeout LeaderTimer] /\
   log (node r) = log n ++ [sampleRecord 2]).
Proof. vm_compute. repeat split; discriminate. Qed.

(** ** Message numbers at a follower *)

Ltac acknowledging :=
  repeat first
    [ apply acknowledges_call
    | apply acknowledges_after;
      [ solve [ returning;
                auto using appendEntries_forEach_returns, applyLogEntries_returns ]
      | intros ? ] ].

Lemma onAppendEntries_accept_acknowledges args :
  acknowledges (onAppendEntries_accept args).
Proof. unfold onAppendEntries_accept. acknowledging. Qed.

Lemma onAppendEntries_accept_frame {X} (f : RaftNode -> X) args :
  (forall v n, f (set_log v n) = f n) ->
  (forall v n, f (set_commitIndex v n) = f n) ->
  (forall v n, f (set_lastApplied v n) = f n) ->
  (forall v n, f (set_leaderTimeout v n) = f n) ->
  (forall v n, f (set_lastMessageNum v n) = f n) ->
  preserves f (onAppendEntries_accept args).
Proof.
  intros Hlog Hcommit Happlied Htimer Hnum.
  assert (Hloop : forall es p i, preserves f (appendEntries_forEach p i es))
    by (intros; apply appendEntries_forEach_frame; assumption).
  assert (Happly : preserves f applyLogEntries)
    by (apply applyLogEntries_frame; assumption).
  unfold onAppendEntries_accept. frame_methods; auto.
Qed.

Lemma onAppendEntries_accept_lastMessageNum args n :
  lastMessageNum (node (onAppendEntries_accept args n)) = AE.messageNum args.
Proof.
  unfold onAppendEntries_accept.
  rewrite (bind_node_normal this _ n (a:=n) eq_refl). cbn [this node].
  rewrite (bind_node_normal (assign _) _ n (a:=tt) eq_refl). cbn [assign node].
  match goal with
  | |- lastMessageNum (node (?k ?n0)) = _ =>
      assert (Hk : preserves lastMessageNum k)
  end.
  { assert (Hloop : forall es p i,
               preserves lastMessageNum (appendEntries_forEach p i es))
      by (intros; apply appendEntries_forEach_frame; reflexivity).
    assert (Happly : preserves lastMessageNum applyLogEntries)
      by (apply applyLogEntries_frame; reflexivity).
    frame_methods; auto. }
  rewrite Hk. reflexivity.
Qed.

(** One AppendEntries message of the current term or an older one at a
    follower. *)
Lemma follower_step n args :
  state n = FOLLOWER ->
  AE.term args <= currentTerm n ->
  let r := onAppendEntriesMessage args n in
  state (node r) = FOLLOWER /\
  currentTerm (node r) = currentTerm n /\
  (AE.isResponse args = false -> AE.messageNum args <= lastMessageNum n ->
   r = ignored n) /\
  (repliesSuccess (effects r) = true ->
   AE.isResponse args = false /\
   lastMessageNum n < AE.messageNum args /\
   lastMessageNum (node r) = AE.messageNum args) /\
  (repliesSuccess (effects r) = false ->
   lastMessageNum (node r) = lastMessageNum n).
Proof.
  intros Hstate Hterm r. unfold r.
  rewrite onAppendEntriesMessage_same_term by exact Hterm. rewrite Hstate.
  assert (Haccept : forall n0,
             state n0 = FOLLOWER -> currentTerm n0 = currentTerm n ->
             AE.isResponse args = false ->
             lastMessageNum n < AE.messageNum args ->
             let r := onAppendEntries_accept args n0 in
             state (node r) = FOLLOWER /\
             currentTerm (node r) = currentTerm n /\
             (AE.isResponse args = false ->
              AE.messageNum args <= lastMessageNum n -> r = ignored n) /\
             (repliesSuccess (effects r) = true ->
              AE.isResponse args = false /\
              lastMessageNum n < AE.messageNum args /\
              lastMessageNum (node r) = AE.messageNum args) /\
             (repliesSuccess (effects r) = false ->
              lastMessageNum (node r) = lastMessageNum n)).
  { intros n0 Hs Ht Hresp Hnum. cbv zeta.
    rewrite (onAppendEntries_accept_frame state) by reflexivity.
    rewrite (onAppendEntries_accept_frame currentTerm) by reflexivity.
    rewrite onAppendEntries_accept_lastMessageNum.
    rewrite onAppendEntries_accept_acknowledges.
    repeat split; trivial; try discriminate. intros; lia. }
  unfold onAppendEntries_follower. rewrite bind_this.
  destruct (AE.isResponse args) eqn:Hresp.
  { cbn. repeat split; trivial; discriminate. }
  destruct (AE.messageNum args <=? lastMessageNum n) eqn:Hnum.
  { cbn. repeat split; trivial; discriminate. }
  apply Z.leb_gt in Hnum.
  destruct (AE.term args <? currentTerm n) eqn:Hold.
  { cbn. repeat split; trivial; try discriminate; try (intros; lia). }
  destruct ((AE.prevLogIndex args >=? 0) &&
            match log_at (log n) (AE.prevLogIndex args) with
            | Some _ => false
            | None => true
            end) eqn:Hprev.
  { cbn. repeat split; trivial; try discriminate; try (intros; lia). }
  destruct (currentLeaderId n) as [leader|] eqn:Hleader.
  - destruct (negb (leader =? AE.senderId args)%string) eqn:Hother.
    + cbn. repeat split; trivial; try discriminate; try (intros; lia).
    + apply (Haccept n Hstate eq_refl eq_refl Hnum).
  - rewrite bind_assign.
    apply (Haccept (set_currentLeaderId (Some (AE.senderId args)) n)
             Hstate eq_refl eq_refl Hnum).
Qed.

(** One RequestVote message of the current term or an older one at a
    follower: the message number is not touched. *)
Lemma follower_vote_step n args :
  state n = FOLLOWER ->
  RV.term args <= currentTerm n ->
  let r := onRequestVoteMessage args n in
  state (node r) = FOLLOWER /\
  currentTerm (node r) = currentTerm n /\
  lastMessageNum (node r) = lastMessageNum n.
Proof.
  intros Hstate Hterm r. unfold r.
  rewrite onRequestVoteMessage_same_term by exact Hterm. rewrite Hstate.
  destruct (RV.isResponse args) eqn:Hresp.
  - unfold onRequestVote_follower. rewrite bind_this, Hresp. cbn. auto.
  - destruct (canVoteFor n args) eqn:Hcan.
    + rewrite onRequestVote_follower_grants by assumption. cbn. auto.
    + rewrite onRequestVote_follower_refuses by assumption. cbn. auto.
Qed.

Lemma receiveAll_follower ms : forall n,
  state n = FOLLOWER ->
  Forall (fun m => termOf m <= currentTerm n) ms ->
  state (fst (receiveAll ms n)) = FOLLOWER /\
  currentTerm (fst (receiveAll ms n)) = currentTerm n /\
  StronglySorted Z.lt (lastMessageNum n :: snd (receiveAll ms n)).
Proof.
  induction ms as [|m rest IH]; intros n Hstate Hterms; cbn [receiveAll].
  - repeat split; trivial. constructor; constructor.
  - inversion Hterms as [|? ? Hm Hrest]; subst.
    destruct m as [args|args]; cbn [onMessage termOf] in *.
    + destruct (follower_step n args Hstate Hm) as (Hs & Ht & _ & Hyes & Hno).
      specialize (IH (node (onAppendEntriesMessage args n)) Hs).
      rewrite Ht in IH. specialize (IH Hrest).
      destruct (receiveAll rest (node (onAppendEntriesMessage args n))) as [n' nums].
      cbn [fst snd] in *. destruct IH as (IHs & IHt & IHsorted).
      repeat split; trivial.
      destruct (repliesSuccess (effects (onAppendEntriesMessage args n))).
      * destruct (Hyes eq_refl) as (_ & Hlt & Heq). rewrite Heq in IHsorted.
        constructor; [exact IHsorted|].
        constructor; [exact Hlt|].
        inversion IHsorted as [|? ? _ Hall]; subst.
        eapply Forall_impl; [|exact Hall]. cbn. intros; lia.
      * rewrite (Hno eq_refl) in IHsorted. exact IHsorted.
    + destruct (follower_vote_step n args Hstate Hm) as (Hs & Ht & Hnum).
      specialize (IH (node (onRequestVoteMessage args n)) Hs).
      rewrite Ht in IH. specialize (IH Hrest).
      destruct (receiveAll rest (node (onRequestVoteMessage args n))) as [n' nums].
      cbn [fst snd] in *. rewrite Hnum in IH. exact IH.
Qed.

(** Claim C7.  A follower takes a sequence of AppendEntries and RequestVote
    messages none of which starts a newer term.  The message numbers of the
    AppendEntries requests it accepts (those it answers with success = true)
    are strictly increasing and above the [lastMessageNum] it started with;
    a request whose number is not above the current [lastMessageNum] is
    ignored, with no change of the node and no reply; and an accepted
    request leaves its number in [lastMessageNum]. *)
Theorem follower_accepts_in_messageNum_order n ms :
  state n = FOLLOWER ->
  Forall (fun m => termOf m <= currentTerm n) ms ->
  StronglySorted Z.lt (lastMessageNum n :: snd (receiveAll ms n)) /\
  forall before args after,
    ms = before ++ APPENDENTRIES args :: after ->
    let n1 := fst (receiveAll before n) in
    let r := onAppendEntriesMessage args n1 in
    (AE.isResponse args = false -> AE.messageNum args <= lastMessageNum n1 ->
     r = ignored n1) /\
    (repliesSuccess (effects r) = true ->
     lastMessageNum n1 < AE.messageNum args /\
     lastMessageNum (node r) = AE.messageNum args).
Proof.
  intros Hstate Hterms. split.
  - apply receiveAll_follower; assumption.
  - intros before args after Hms n1 r. subst ms.
    apply Forall_app in Hterms. destruct Hterms as [Hbefore Hafter].
    inversion Hafter as [|? ? Hargs _]; subst. cbn [termOf] in Hargs.
    destruct (receiveAll_follower n Hstate Hbefore) as (Hs & Ht & _).
    fold n1 in Hs, Ht. rewrite <- Ht in Hargs.
    destruct (follower_step n1 args Hs Hargs) as (_ & _ & Hstale & Hyes & _).
    split; [exact Hstale|]. intros H. destruct (Hyes H) as (_ & H1 & H2). tauto.
Qed.

Lemma follower_accepts_in_messageNum_order_witness :
  StronglySorted Z.lt
    (4 :: snd (receiveAll [APPENDENTRIES (request "B" 3 5 2 (Some 1) [] (-1));
                           REQUESTVOTE (voteRequest "C" 3 2 (Some 1));
                           APPENDENTRIES (request "B" 3 5 2 (Some 1) [] (-1));
                           APPENDENTRIES (request "B" 3 7 2 (Some 1) [] (-1))]
                  (followerOfB (-1)))).
Proof.
  apply (follower_accepts_in_messageNum_order (followerOfB (-1))).
  - reflexivity.
  - repeat constructor; discriminate.
Defined.

(** ** The applier *)

Lemma set_log_same n : set_log (log n) n = n.
Proof. destruct n. reflexivity. Qed.

Lemma skipn_nth_error {A} (l : list A) k e :
  nth_error l k = Some e -> skipn k l = e :: skipn (S k) l.
Proof.
  revert k. induction l as [|x l IH]; intros [|k] H; cbn in *; try discriminate.
  - injection H as ->. reflexivity.
  - apply IH. exact H.
Qed.

Lemma list_update_length {A} (l : list A) k v :
  List.length (list_update l k v) = List.length l.
Proof.
  revert k. induction l as [|x l IH]; intros [|k]; cbn; auto.
Qed.

Lemma list_update_skipn {A} (l : list A) k v :
  skipn (S k) (list_update l k v) = skipn (S k) l.
Proof.
  revert k. induction l as [|x l IH]; intros [|k]; cbn; auto.
  apply IH.
Qed.

Lemma list_update_firstn {A} (l : list A) k v e :
  nth_error l k = Some e ->
  firstn (S k) (list_update l k v) = firstn k l ++ [v].
Proof.
  revert k. induction l as [|x l IH]; intros [|k] H; cbn in *; try discriminate.
  - reflexivity.
  - f_equal. apply IH. exact H.
Qed.

Lemma log_at_nat l k : log_at l (Z.of_nat k) = nth_error l k.
Proof.
  unfold log_at, log_get.
  replace (Z.of_nat k <? 0) with false by (symmetry; apply Z.ltb_ge; lia).
  rewrite Nat2Z.id. reflexivity.
Qed.

Lemma at_position_nat l k : at_position l (Z.of_nat k) = k.
Proof.
  unfold at_position.
  replace (Z.of_nat k <? 0) with false by (symmetry; apply Z.ltb_ge; lia).
  apply Nat2Z.id.
Qed.

(** One record, with the database enabled: the query and nothing else. *)
Lemma applyLogEntry_enabled n k e :
  disabledDB (config n) = false ->
  nth_error (log n) k = Some e ->
  commandType e <> UNKNOWN_COMMAND ->
  applyLogEntry (Z.of_nat k) n = mkOutcome (Normal tt) n [queryOf e].
Proof.
  intros Hdb Hnth Hknown. unfold applyLogEntry. rewrite bind_this.
  rewrite log_at_nat, Hnth, Hdb. unfold queryOf.
  destruct (commandType e); try reflexivity. contradiction.
Qed.

(** One record, with the database disabled: the callback and its reset. *)
Lemma applyLogEntry_disabled n k e :
  disabledDB (config n) = true ->
  nth_error (log n) k = Some e ->
  commandType e <> UNKNOWN_COMMAND ->
  applyLogEntry (Z.of_nat k) n =
  mkOutcome (Normal tt) (set_log (list_update (log n) k (fulfilled e)) n)
    (fst (applyLogEntry_finish e None)).
Proof.
  intros Hdb Hnth Hknown. unfold applyLogEntry. rewrite bind_this.
  rewrite log_at_nat, Hnth, Hdb, at_position_nat. unfold fulfilled, applyLogEntry_finish.
  destruct (commandType e); try contradiction;
    destruct (callback e); reflexivity.
Qed.

Lemma applyLogEntries_loop_enabled count : forall k n,
  disabledDB (config n) = false ->
  (k + count <= List.length (log n))%nat ->
  Forall (fun e => commandType e <> UNKNOWN_COMMAND) (firstn count (skipn k (log n))) ->
  applyLogEntries_loop count (Z.of_nat k) n =
  mkOutcome (Normal tt) n (map queryOf (firstn count (skipn k (log n)))).
Proof.
  induction count as [|count IH]; intros k n Hdb Hlen Hknown.
  - reflexivity.
  - destruct (nth_error (log n) k) as [e|] eqn:Hnth.
    2: { apply nth_error_None in Hnth. lia. }
    rewrite (skipn_nth_error _ _ Hnth) in *. cbn [firstn map] in *.
    inversion Hknown as [|? ? He Hrest]; subst.
    cbn [applyLogEntries_loop]. unfold bind.
    rewrite (applyLogEntry_enabled _ _ Hdb Hnth He). cbn [completion node effects].
    replace (Z.of_nat k + 1) with (Z.of_nat (S k)) by lia.
    rewrite IH; trivial. lia.
Qed.

Lemma applyLogEntries_loop_disabled count : forall k n,
  disabledDB (config n) = true ->
  (k + count <= List.length (log n))%nat ->
  Forall (fun e => commandType e <> UNKNOWN_COMMAND) (firstn count (skipn k (log n))) ->
  applyLogEntries_loop count (Z.of_nat k) n =
  mkOutcome (Normal tt)
    (set_log (firstn k (log n) ++ map fulfilled (firstn count (skipn k (log n)))
              ++ skipn (k + count) (log n)) n)
    (flat_map (fun e => fst (applyLogEntry_finish e None))
       (firstn count (skipn k (log n)))).
Proof.
  induction count as [|count IH]; intros k n Hdb Hlen Hknown.
  - cbn. rewrite Nat.add_0_r, firstn_skipn, set_log_same. reflexivity.
  - destruct (nth_error (log n) k) as [e|] eqn:Hnth.
    2: { apply nth_error_None in Hnth. lia. }
    rewrite (skipn_nth_error _ _ Hnth) in *. cbn [firstn map flat_map] in *.
    inversion Hknown as [|? ? He Hrest]; subst.
    cbn [applyLogEntries_loop]. unfold bind.
    rewrite (applyLogEntry_disabled _ _ Hdb Hnth He). cbn [completion node effects].
    replace (Z.of_nat k + 1) with (Z.of_nat (S k)) by lia.
    rewrite IH; cbn [log set_log config];
      rewrite ?list_update_length, ?list_update_skipn; trivial; try lia.
    cbn [completion node effects].
    erewrite list_update_firstn by exact Hnth.
    replace (S k + count)%nat with (count + S k)%nat by lia.
    rewrite <- (skipn_skipn count (S k)), list_update_skipn, skipn_skipn.
    replace (count + S k)%nat with (k + S count)%nat by lia.
    rewrite <- app_assoc. reflexivity.
Qed.

Lemma applyLogEntries_nothing n :
  js_gt (commitIndex n) (Num (lastApplied n)) = false ->
  applyLogEntries n = ignored n.
Proof.
  intros H. unfold applyLogEntries. rewrite bind_this.
  destruct (commitIndex n); try reflexivity.
  cbn in H. rewrite H. reflexivity.
Qed.

Lemma applyLogEntries_something n c :
  commitIndex n = Num c ->
  lastApplied n < c ->
  applyLogEntries n =
  bind (applyLogEntries_loop (Z.to_nat (c - lastApplied n)) (lastApplied n + 1))
       (fun _ => assign (set_lastApplied c)) n.
Proof.
  intros Hc Hlt. unfold applyLogEntries. rewrite bind_this.
  rewrite Hc, (gtb_true Hlt). reflexivity.
Qed.

(** After a run there is nothing left to apply. *)
Lemma applyLogEntries_twice n :
  applyLogEntries (node (applyLogEntries n)) = ignored (node (applyLogEntries n)).
Proof.
  destruct (js_gt (commitIndex n) (Num (lastApplied n))) eqn:Hgt.
  - destruct (commitIndex n) as [c| |] eqn:Hc; try discriminate.
    cbn in Hgt. rewrite Z.gtb_ltb in Hgt. apply Z.ltb_lt in Hgt.
    rewrite (applyLogEntries_something _ Hc Hgt).
    apply applyLogEntries_nothing.
    set (loop := applyLogEntries_loop _ _).
    rewrite (bind_node_normal loop _ n (a:=tt))
      by (apply returns_unit, applyLogEntries_loop_returns).
    cbn [assign node set_lastApplied commitIndex lastApplied].
    unfold loop. rewrite (applyLogEntries_loop_frame commitIndex) by reflexivity.
    rewrite Hc. cbn. rewrite Z.gtb_ltb. apply Z.ltb_irrefl.
  - rewrite (applyLogEntries_nothing _ Hgt). cbn.
    apply applyLogEntries_nothing. exact Hgt.
Qed.

(** Claim C8, as amended.  A run of the applier with nothing to apply
    (the commit index is not above the applied index, or is undefined) is
    ignored.  A run with commitIndex = c above lastApplied, the indices up
    to c in the log and their command types known, returns, sets
    lastApplied to c and handles the records at the indices
    (lastApplied, c] once each, in increasing order: with the database
    enabled it issues the query of each record and nothing else, the
    callbacks staying in the log; with the database disabled it issues no
    query, calls the callback of each record that has one with a null
    result and resets it.  When the database answers a query, the rest of
    [applyLogEntry] calls the callback of the record with the result and
    resets it.  A second run straight after any run is ignored. *)
Theorem applier_run n :
  let r := applyLogEntries n in
  (js_gt (commitIndex n) (Num (lastApplied n)) = false -> r = ignored n) /\
  (forall c,
      commitIndex n = Num c ->
      -1 <= lastApplied n < c ->
      c < Z.of_nat (List.length (log n)) ->
      Forall (fun e => commandType e <> UNKNOWN_COMMAND) (toApply n c) ->
      completion r = Normal tt /\
      lastApplied (node r) = c /\
      commitIndex (node r) = Num c /\
      (disabledDB (config n) = false ->
       effects r = map queryOf (toApply n c) /\
       log (node r) = log n) /\
      (disabledDB (config n) = true ->
       effects r = flat_map (fun e => fst (applyLogEntry_finish e None)) (toApply n c) /\
       log (node r) = firstn (Z.to_nat (lastApplied n + 1)) (log n)
                      ++ map fulfilled (toApply n c)
                      ++ skipn (Z.to_nat (c + 1)) (log n))) /\
  (forall e h res,
      callback e = Some h ->
      applyLogEntry_finish e res =
      ([callCallback h res], mkLogRecord (term e) (commandType e) (logData e) None)) /\
  applyLogEntries (node r) = ignored (node r).
Proof.
  intros r. split; [|split; [|split]].
  - apply applyLogEntries_nothing.
  - intros c Hc [Hlow Hlt] Hlen Hknown. unfold r, toApply in *.
    rewrite (applyLogEntries_something _ Hc Hlt).
    set (count := Z.to_nat (c - lastApplied n)) in *.
    set (k := Z.to_nat (lastApplied n + 1)) in *.
    replace (lastApplied n + 1) with (Z.of_nat k) by (unfold k; lia).
    assert (Hbound : (k + count <= List.length (log n))%nat) by (unfold k, count; lia).
    destruct (disabledDB (config n)) eqn:Hdb.
    + unfold bind. rewrite applyLogEntries_loop_disabled by assumption.
      cbn. rewrite app_nil_r. repeat split; trivial; try discriminate.
      replace (Z.to_nat (c + 1)) with (k + count)%nat by (unfold k, count; lia).
      reflexivity.
    + unfold bind. rewrite applyLogEntries_loop_enabled by assumption.
      cbn. rewrite app_nil_r. repeat split; trivial; discriminate.
  - intros e h res H. unfold applyLogEntry_finish. rewrite H. reflexivity.
  - apply applyLogEntries_twice.
Qed.

Lemma applier_run_witness :
  effects (applyLogEntries (waitingLeader false))
  = map queryOf (toApply (waitingLeader false) 2) /\
  effects (applyLogEntries (waitingLeader true))
  = flat_map (fun e => fst (applyLogEntry_finish e None)) (toApply (waitingLeader true) 2).
Proof.
  split.
  - destruct (applier_run (waitingLeader false)) as (_ & H & _).
    destruct (H 2 eq_refl) as (_ & _ & _ & Henabled & _).
    + split; [discriminate|reflexivity].
    + reflexivity.
    + repeat constructor; discriminate.
    + apply Henabled. reflexivity.
  - destruct (applier_run (waitingLeader true)) as (_ & H & _).
    destruct (H 2 eq_refl) as (_ & _ & _ & _ & Hdisabled).
    + split; [discriminate|reflexivity].
    + reflexivity.
    + repeat constructor; discriminate.
    + apply Hdisabled. reflexivity.
Defined.

(** Claim C8, as stated, fails in either mode of the node.  With the
    database disabled the run over the indices 1 and 2 makes no call to the
    database: it only calls the two callbacks, with a null result.  With the
    database enabled the run issues the two queries and sets lastApplied to
    2 while no callback has been called and both records still carry
    theirs. *)
Lemma applier_neither_queries_nor_fulfils :
  (let r := applyLogEntries (waitingLeader true) in
   effects r = [callCallback 7 None; callCallback 8 None] /\
   lastApplied (node r) = 2) /\
  (let r := applyLogEntries (waitingLeader false) in
   effects r = [dbQuery NEW_USER "user"; dbQuery NEW_AUCTION "auction"] /\
   lastApplied (node r) = 2 /\
   map callback (log (node r)) = [None; Some 7%nat; Some 8%nat]).
Proof. vm_compute. repeat split. Qed.

(** ** Votes of a candidate *)

Lemma becomeLeader_votesGathered : preserves votesGathered becomeLeader.
Proof. unfold becomeLeader. frame_methods. Qed.

Lemma stopHeartbeatTimeout_returns nodeId : returns (stopHeartbeatTimeout nodeId).
Proof. unfold stopHeartbeatTimeout. returning. Qed.

(** Claim C9.  A candidate counts every granted RequestVote response of
    its term (or of an older one): [votesGathered] grows by one whoever the
    sender is.  A candidate of five nodes that holds its own vote receives
    the granted response of B twice: it counts three votes and becomes the
    leader, although B and itself, two nodes of five, are the only nodes
    that voted for it. *)
Theorem votes_counted_without_deduplication :
  (forall n args,
      state n = CANDIDATE ->
      RV.term args <= currentTerm n ->
      RV.isResponse args = true ->
      RV.voteGranted args = true ->
      votesGathered (node (onRequestVoteMessage args n)) = votesGathered n + 1) /\
  (let responses := [voteFrom "B" 2; voteFrom "B" 2] in
   let n := receiveVotes responses candidateOfFive in
   state candidateOfFive = CANDIDATE /\
   votesGathered candidateOfFive = 1 /\
   voters responses = ["B"] /\
   votesGathered n = 3 /\
   state n = LEADER /\
   Z.of_nat (List.length (voters responses)) + 1 <= clusterSize candidateOfFive / 2).
Proof.
  split.
  - intros n args Hstate Hterm Hresp Hgranted.
    rewrite onRequestVoteMessage_same_term by exact Hterm. rewrite Hstate.
    unfold onRequestVote_candidate. rewrite bind_this, Hresp, Hgranted.
    rewrite (bind_node_normal (stopHeartbeatTimeout _) _ n (a:=tt))
      by (apply returns_unit, stopHeartbeatTimeout_returns).
    rewrite bind_assign.
    match goal with
    | |- votesGathered (node (?k ?n0)) = _ =>
        assert (Hk : preserves votesGathered k)
    end.
    { frame_step; [frame|]. intros n1.
      destruct (_ >? _); [apply becomeLeader_votesGathered|apply preserves_ret]. }
    rewrite Hk. cbn [set_votesGathered votesGathered].
    assert (Hstop : preserves votesGathered
                      (stopHeartbeatTimeout (Some (RV.senderId args))))
      by frame_methods.
    rewrite Hstop. reflexivity.
  - vm_compute. repeat split; discriminate.
Qed.

Lemma votes_counted_without_deduplication_witness :
  votesGathered (node (onRequestVoteMessage (voteFrom "B" 2) candidateOfFive)) = 2.
Proof.
  apply (proj1 votes_counted_without_deduplication candidateOfFive (voteFrom "B" 2));
    first [reflexivity | discriminate].
Defined.

(** ** Elections *)

Lemma bind_call_effects {B} e (k : unit -> M B) n :
  effects (bind (call e) k n) = e :: effects (k tt n).
Proof. reflexivity. Qed.

Lemma startNewElection_currentTerm n :
  currentTerm (node (startNewElection n)) = currentTerm n + 1.
Proof.
  unfold startNewElection. rewrite !bind_assign, bind_this.
  match goal with
  | |- currentTerm (node (?k ?n0)) = _ => assert (Hk : preserves currentTerm k)
  end.
  { frame_methods. }
  rewrite Hk. reflexivity.
Qed.

Lemma startNewElection_log n : log (node (startNewElection n)) = log n.
Proof.
  unfold startNewElection. rewrite !bind_assign, bind_this.
  match goal with
  | |- log (node (?k ?n0)) = _ => assert (Hk : preserves log k)
  end.
  { frame_methods. }
  rewrite Hk. reflexivity.
Qed.

Lemma startNewElection_broadcast n :
  exists rest,
    effects (startNewElection n) =
    sendElectionNotice (currentTerm n + 1) (Z.of_nat (List.length (log n)) - 1)
      (lastLogTermOf (log n)) :: rest.
Proof.
  unfold startNewElection. rewrite !bind_assign, bind_this, bind_call_effects.
  eexists. reflexivity.
Qed.

Lemma returns_while_candidate (m k : M unit) :
  returns m -> preserves state m ->
  (forall n, state n = CANDIDATE -> completion (k n) = Normal tt) ->
  forall n, state n = CANDIDATE -> completion ((m ;; k) n) = Normal tt.
Proof.
  intros Hm Hstate Hk n Hn.
  rewrite (bind_completion_normal m _ n (a:=tt)) by (apply returns_unit, Hm).
  apply Hk. rewrite Hstate. exact Hn.
Qed.

Lemma waitForHeartbeatTimeout_candidate nodeId n :
  state n = CANDIDATE -> completion (waitForHeartbeatTimeout nodeId n) = Normal tt.
Proof.
  intros Hn. unfold waitForHeartbeatTimeout. rewrite bind_this, Hn.
  apply returns_unit. returning_methods.
Qed.

Lemma startNewElection_returns n : completion (startNewElection n) = Normal tt.
Proof.
  unfold startNewElection. rewrite !bind_assign, bind_this.
  apply returns_while_candidate; [returning|frame| |reflexivity].
  apply returns_while_candidate; [returning_methods|frame_methods|].
  apply returns_while_candidate; [returning_methods|frame_methods|].
  unfold resetHeartbeatTimeout.
  apply returns_while_candidate; [returning_methods|frame_methods|].
  apply waitForHeartbeatTimeout_candidate.
Qed.

Lemma startNewElection_state n : state (node (startNewElection n)) = CANDIDATE.
Proof.
  unfold startNewElection. rewrite !bind_assign, bind_this.
  match goal with
  | |- state (node (?k ?n0)) = _ => assert (Hk : preserves state k)
  end.
  { frame_methods. }
  rewrite Hk. reflexivity.
Qed.

(** Claim C10.  An election fired sooner than [minElectionDelay] after the
    previous one is claimed to be suppressed.  The node never looks at the
    delay: when the leader timer fires at [t0] and the election timer at
    [t1], less than [minElectionDelay] later, the second election runs like
    the first, so that the term has grown by two and the RequestVote notice
    of the second election is broadcast. *)
Theorem election_not_suppressed n t0 t1 :
  t0 <= t1 ->
  t1 < t0 + minElectionDelay (config n) ->
  let first := onLeaderTimeout t0 n in
  let second := onElectionTimeout t1 (node first) in
  currentTerm (node first) = currentTerm n + 1 /\
  completion second = Normal tt /\
  state (node second) = CANDIDATE /\
  currentTerm (node second) = currentTerm n + 2 /\
  exists rest,
    effects second =
    sendElectionNotice (currentTerm n + 2) (Z.of_nat (List.length (log n)) - 1)
      (lastLogTermOf (log n)) :: rest.
Proof.
  intros _ _. unfold onLeaderTimeout, onElectionTimeout. cbv zeta.
  rewrite startNewElection_returns, startNewElection_state.
  rewrite !startNewElection_currentTerm.
  repeat split; try lia.
  destruct (startNewElection_broadcast (node (startNewElection n))) as [rest H].
  exists rest. rewrite H, startNewElection_currentTerm, startNewElection_log.
  f_equal. f_equal. lia.
Qed.

Lemma election_not_suppressed_witness :
  currentTerm (node (onElectionTimeout 150 (node (onLeaderTimeout 0 candidateOfFive))))
  = currentTerm candidateOfFive + 2.
Proof.
  destruct (@election_not_suppressed candidateOfFive 0 150) as (_ & _ & _ & H & _).
  - discriminate.
  - reflexivity.
  - exact H.
Defined.

(** ** What the handlers do in general at the places above *)

Lemma bind_ret {A B} (a : A) (k : A -> M B) n : bind (ret a) k n = k a n.
Proof. unfold bind. cbn. apply outcome_eta. Qed.

(** The commit rule of the leader as the source has it: the element at
    position floor(clusterSize/2) of the match indices in the order of
    [sort()], and [undefined] when there is no such position. *)
Lemma leader_commit_rule n args :
  state n = LEADER ->
  AE.term args <= currentTerm n ->
  AE.isResponse args = true ->
  AE.success args = true ->
  let r := onAppendEntriesMessage args n in
  completion r = Normal tt ->
  matchIndex (node r) =
    Map_set (AE.senderId args) (Map_num (lastSent n) (AE.senderId args)) (matchIndex n) /\
  commitIndex (node r) =
    Array_get (Array_sort (Map_values (matchIndex (node r)))) (clusterSize n / 2).
Proof.
  intros Hstate Hterm Hresp Hsuccess r. unfold r.
  rewrite onAppendEntriesMessage_same_term by exact Hterm. rewrite Hstate.
  unfold onAppendEntries_leader. rewrite bind_this, Hresp, Hsuccess. cbn [negb].
  unfold onAppendEntries_success. rewrite !bind_assign, bind_this.
  assert (Hm : preserves matchIndex applyLogEntries)
    by (apply applyLogEntries_frame; reflexivity).
  assert (Hc : preserves commitIndex applyLogEntries)
    by (apply applyLogEntries_frame; reflexivity).
  match goal with
  | |- context [bind ?prev _ _] =>
      assert (Hprev : forall n0, (exists a, prev n0 = ret a n0) \/
                                 (exists e, prev n0 = throw e n0))
  end.
  { intros n0. destruct (js_ge0 _); [|left; eexists; reflexivity].
    destruct (js_add _ _) as [i| |]; try (left; eexists; reflexivity).
    destruct (log_get _ i); [left|right]; eexists; reflexivity. }
  match goal with
  | |- context [bind ?prev ?k ?n0] =>
      destruct (Hprev n0) as [[a Ha]|[e He]];
      [ replace (bind prev k n0) with (bind (ret a) k n0)
          by (unfold bind; rewrite Ha; reflexivity)
      | replace (bind prev k n0) with (bind (@throw (option Z) e) k n0)
          by (unfold bind; rewrite He; reflexivity) ]
  end.
  2: { cbn. discriminate. }
  rewrite bind_ret, bind_assign, bind_this. intros _.
  match goal with
  | |- matchIndex (node (?k ?n0)) = _ /\ _ =>
      assert (Hkm : preserves matchIndex k) by (frame_methods; auto);
      assert (Hkc : preserves commitIndex k) by (frame_methods; auto)
  end.
  rewrite Hkm, Hkc. split; reflexivity.
Qed.

(** The block for a newer term of an AppendEntries message sets everything
    the specification lists but the vote. *)
Lemma onAppendEntries_newTerm_fields n args :
  currentTerm n < AE.term args ->
  let r := onAppendEntries_newTerm args n in
  state (node r) = FOLLOWER /\
  currentTerm (node r) = AE.term args /\
  currentLeaderId (node r) =
    (if AE.isResponse args then None else Some (AE.senderId args)) /\
  lastMessageNum (node r) = -1 /\
  leaderTimeout (node r) = true /\
  votedFor (node r) = votedFor n.
Proof.
  intros Hterm r. unfold r, onAppendEntries_newTerm.
  rewrite bind_this, (gtb_true Hterm).
  assert (Hstop : forall nodeId, returns (stopHeartbeatTimeout nodeId))
    by (intros; apply stopHeartbeatTimeout_returns).
  set (stop := match state n with
               | FOLLOWER => ret tt
               | CANDIDATE => stopHeartbeatTimeout None ;; stopElectionTimeout
               | LEADER => stopHeartbeatTimeout None
               end).
  assert (Hreturns : returns stop) by (unfold stop; returning_methods).
  assert (Hvote : preserves votedFor stop) by (unfold stop; frame_methods).
  rewrite (bind_node_normal stop _ n (a:=tt)) by (apply returns_unit, Hreturns).
  rewrite !bind_assign. cbn. rewrite Hvote. repeat split.
Qed.

(** The handler never reads [prevLogTerm]: two AppendEntries messages that
    differ in that field only have the same outcome on every node. *)
Lemma prevLogTerm_is_never_read sender t response num prevIndex prevTerm prevTerm'
    entries commit success n :
  onAppendEntriesMessage
    (AE.mk sender t response num prevIndex prevTerm entries commit success) n =
  onAppendEntriesMessage
    (AE.mk sender t response num prevIndex prevTerm' entries commit success) n.
Proof. reflexivity. Qed.

(** * Further properties *)

(** ** Rules for properties that a method keeps *)

Lemma keeps_ret {A} P (a : A) : keeps P (ret a).
Proof. intros n H. exact H. Qed.

Lemma keeps_call P e : keeps P (call e).
Proof. intros n H. exact H. Qed.

Lemma keeps_throw {A} P s : keeps P (@throw A s).
Proof. intros n H. exact H. Qed.

Lemma keeps_assign (P : RaftNode -> Prop) g :
  (forall n, P n -> P (g n)) -> keeps P (assign g).
Proof. intros H n Hn. apply H, Hn. Qed.

Lemma keeps_bind {A B} P (m : M A) (k : A -> M B) :
  keeps P m -> (forall a, keeps P (k a)) -> keeps P (bind m k).
Proof.
  intros Hm Hk n Hn. unfold bind.
  destruct (completion (m n)) as [a|e]; cbn.
  - apply Hk, Hm, Hn.
  - apply Hm, Hn.
Qed.

Lemma keeps_this {A} P (k : RaftNode -> M A) :
  (forall n0, P n0 -> keeps P (k n0)) -> keeps P (bind this k).
Proof. intros H n Hn. rewrite bind_this. apply (H n Hn n Hn). Qed.

Lemma keeps_forEach {A} P (l : list A) body :
  (forall x, keeps P (body x)) -> keeps P (forEach l body).
Proof.
  intros H. induction l as [|x l IH]; cbn.
  - apply keeps_ret.
  - apply keeps_bind; auto.
Qed.

Lemma keeps_preserved {X A} (f : RaftNode -> X) (Q : X -> Prop) (m : M A) :
  preserves f m -> keeps (fun n => Q (f n)) m.
Proof. intros H n Hn. rewrite H. exact Hn. Qed.

(** ** What the handlers of the three states leave alone *)

Lemma onAppendEntries_accept_preserves {X} (f : RaftNode -> X) args :
  (forall v n, f (set_log v n) = f n) ->
  (forall v n, f (set_commitIndex v n) = f n) ->
  (forall v n, f (set_lastApplied v n) = f n) ->
  (forall v n, f (set_leaderTimeout v n) = f n) ->
  (forall v n, f (set_lastMessageNum v n) = f n) ->
  preserves f (onAppendEntries_accept args).
Proof.
  intros Hlog Hcommit Happlied Htimer Hnum.
  assert (Hloop : forall es p i, preserves f (appendEntries_forEach p i es))
    by (intros; apply appendEntries_forEach_frame; assumption).
  assert (Happly : preserves f applyLogEntries)
    by (apply applyLogEntries_frame; assumption).
  unfold onAppendEntries_accept. frame_methods; auto.
Qed.

(** The part of [onAppendEntriesMessage] after the block for a newer
    term. *)
Lemma onAppendEntries_case_term args :
  preserves currentTerm
    (n <- this ;;
     match state n with
     | FOLLOWER => onAppendEntries_follower args
     | CANDIDATE => onAppendEntries_candidate args
     | LEADER => onAppendEntries_leader args
     end).
Proof.
  assert (Haccept : preserves currentTerm (onAppendEntries_accept args))
    by (apply onAppendEntries_accept_preserves; reflexivity).
  assert (Happly : preserves currentTerm applyLogEntries)
    by (apply applyLogEntries_frame; reflexivity).
  unfold onAppendEntries_follower, onAppendEntries_leader, onAppendEntries_candidate,
    onAppendEntries_success.
  frame_methods; auto.
Qed.

Lemma becomeLeader_preserves {X} (f : RaftNode -> X) :
  (forall v n, f (set_state v n) = f n) ->
  (forall v n, f (set_nodeIdToMessageNum v n) = f n) ->
  (forall v n, f (set_matchIndex v n) = f n) ->
  (forall v n, f (set_nextIndex v n) = f n) ->
  (forall v n, f (set_lastSent v n) = f n) ->
  (forall v n, f (set_heartbeatTimeouts v n) = f n) ->
  (forall v n, f (set_electionTimeout v n) = f n) ->
  preserves f becomeLeader.
Proof. intros. unfold becomeLeader. frame_methods. Qed.

Lemma onRequestVote_case_term args :
  preserves currentTerm
    (n <- this ;;
     match state n with
     | FOLLOWER => onRequestVote_follower args
     | CANDIDATE => onRequestVote_candidate args
     | LEADER => onRequestVote_leader args
     end).
Proof.
  assert (Hleader : preserves currentTerm becomeLeader)
    by (apply becomeLeader_preserves; reflexivity).
  unfold onRequestVote_follower, onRequestVote_leader, onRequestVote_candidate.
  frame_methods; auto.
Qed.

Lemma stop_timers_returns n0 :
  returns (match state n0 with
           | FOLLOWER => ret tt
           | CANDIDATE => stopHeartbeatTimeout None ;; stopElectionTimeout
           | LEADER => stopHeartbeatTimeout None
           end).
Proof. returning_methods. Qed.

Lemma onAppendEntries_newTerm_returns args : returns (onAppendEntries_newTerm args).
Proof. unfold onAppendEntries_newTerm. returning_methods. Qed.

Lemma onRequestVote_newTerm_returns args : returns (onRequestVote_newTerm args).
Proof. unfold onRequestVote_newTerm. returning_methods. Qed.

Lemma onAppendEntries_newTerm_term args n :
  currentTerm (node (onAppendEntries_newTerm args n)) =
  Z.max (currentTerm n) (AE.term args).
Proof.
  destruct (Z_lt_le_dec (currentTerm n) (AE.term args)) as [Hlt|Hle].
  - destruct (onAppendEntries_newTerm_fields n args Hlt) as (_ & H & _).
    rewrite H. lia.
  - unfold onAppendEntries_newTerm. rewrite bind_this, (gtb_false Hle). cbn. lia.
Qed.

Lemma onRequestVote_newTerm_term args n :
  currentTerm (node (onRequestVote_newTerm args n)) =
  Z.max (currentTerm n) (RV.term args).
Proof.
  unfold onRequestVote_newTerm. rewrite bind_this.
  destruct (Z_lt_le_dec (currentTerm n) (RV.term args)) as [Hlt|Hle].
  - rewrite (gtb_true Hlt).
    rewrite (bind_node_normal _ _ n (a:=tt)) by (apply returns_unit, stop_timers_returns).
    rewrite !bind_assign.
    match goal with
    | |- currentTerm (node (?k ?n0)) = _ => assert (Hk : preserves currentTerm k)
    end.
    { frame_methods. }
    rewrite Hk. cbn. lia.
  - rewrite (gtb_false Hle). cbn. lia.
Qed.

(** X1.  Whatever the state of the node and whatever the message, the term
    of the node after the handler is the larger of its term and the term of
    the message: a message never lowers the term, and a newer term is always
    adopted. *)
Theorem currentTerm_after_message m n :
  currentTerm (node (onMessage m n)) = Z.max (currentTerm n) (termOf m).
Proof.
  destruct m as [args|args]; cbn [onMessage termOf].
  - unfold onAppendEntriesMessage.
    rewrite (bind_node_normal _ _ n (a:=tt))
      by (apply returns_unit, onAppendEntries_newTerm_returns).
    rewrite onAppendEntries_case_term. apply onAppendEntries_newTerm_term.
  - unfold onRequestVoteMessage.
    rewrite (bind_node_normal _ _ n (a:=tt))
      by (apply returns_unit, onRequestVote_newTerm_returns).
    rewrite onRequestVote_case_term. apply onRequestVote_newTerm_term.
Qed.

Lemma keeps_it P : keeps P this.
Proof. intros n H. exact H. Qed.

Ltac keeps_step :=
  match goal with
  | |- keeps _ (bind _ _) => apply keeps_bind; [|intros ?]
  | |- keeps _ (ret _) => apply keeps_ret
  | |- keeps _ break => apply keeps_ret
  | |- keeps _ this => apply keeps_it
  | |- keeps _ (call _) => apply keeps_call
  | |- keeps _ (throw _) => apply keeps_throw
  | |- keeps _ (forEach _ _) => apply keeps_forEach; intros ?
  | |- keeps _ (if ?b then _ else _) => destruct b
  | |- keeps _ (match ?x with _ => _ end) => destruct x
  | |- keeps _ (let (_, _) := ?x in _) => destruct x
  end.

Ltac keeping := repeat keeps_step.

Lemma resetLeaderTimeout_arms n :
  resetLeaderTimeout n =
  mkOutcome (Normal tt) (set_leaderTimeout true n)
    [clearTimeout LeaderTimer; setTimeout LeaderTimer].
Proof. reflexivity. Qed.

Lemma resetLeaderTimeout_keeps_armed :
  keeps (fun n => leaderTimeout n = true) resetLeaderTimeout.
Proof. intros n _. reflexivity. Qed.

Lemma onAppendEntries_follower_preserves {X} (f : RaftNode -> X) args :
  (forall v n, f (set_log v n) = f n) ->
  (forall v n, f (set_commitIndex v n) = f n) ->
  (forall v n, f (set_lastApplied v n) = f n) ->
  (forall v n, f (set_leaderTimeout v n) = f n) ->
  (forall v n, f (set_lastMessageNum v n) = f n) ->
  (forall v n, f (set_currentLeaderId v n) = f n) ->
  preserves f (onAppendEntries_follower args).
Proof.
  intros Hlog Hcommit Happlied Htimer Hnum Hleader.
  assert (Haccept : preserves f (onAppendEntries_accept args))
    by (apply onAppendEntries_accept_preserves; assumption).
  unfold onAppendEntries_follower. frame_methods; auto.
Qed.

Lemma onAppendEntries_follower_keeps_armed args :
  keeps (fun n => leaderTimeout n = true) (onAppendEntries_follower args).
Proof.
  assert (Hloop : forall es p i,
             keeps (fun n => leaderTimeout n = true) (appendEntries_forEach p i es)).
  { intros. apply (@keeps_preserved _ _ leaderTimeout (fun b => b = true)).
    apply appendEntries_forEach_frame; reflexivity. }
  assert (Happly : keeps (fun n => leaderTimeout n = true) applyLogEntries).
  { apply (@keeps_preserved _ _ leaderTimeout (fun b => b = true)).
    apply applyLogEntries_frame; reflexivity. }
  assert (Hreset := resetLeaderTimeout_keeps_armed).
  assert (Hassign : forall g,
             (forall n, leaderTimeout (g n) = leaderTimeout n) ->
             keeps (fun n => leaderTimeout n = true) (assign g)).
  { intros g Hg. apply keeps_assign. intros n Hn. rewrite Hg. exact Hn. }
  unfold onAppendEntries_follower, onAppendEntries_accept.
  keeping; auto; apply Hassign; reflexivity.
Qed.

Lemma onAppendEntries_follower_leader args n :
  AE.isResponse args = true \/ currentLeaderId n <> None ->
  currentLeaderId (node (onAppendEntries_follower args n)) = currentLeaderId n.
Proof.
  intros H. unfold onAppendEntries_follower. rewrite bind_this.
  destruct (AE.isResponse args); [reflexivity|].
  destruct H as [H|H]; [discriminate|].
  destruct (_ <=? _); [reflexivity|].
  destruct (_ <? _); [reflexivity|].
  destruct (_ && _); [reflexivity|].
  destruct (currentLeaderId n) as [leader|] eqn:Hleader; [|contradiction].
  destruct (negb _); [exact Hleader|].
  rewrite (onAppendEntries_accept_preserves currentLeaderId) by reflexivity.
  exact Hleader.
Qed.

Lemma onRequestVote_follower_preserves {X} (f : RaftNode -> X) args :
  (forall v n, f (set_votedFor v n) = f n) ->
  (forall v n, f (set_leaderTimeout v n) = f n) ->
  preserves f (onRequestVote_follower args).
Proof. intros. unfold onRequestVote_follower. frame_methods. Qed.

Lemma onRequestVote_follower_keeps_armed args :
  keeps (fun n => leaderTimeout n = true) (onRequestVote_follower args).
Proof.
  assert (Hreset := resetLeaderTimeout_keeps_armed).
  unfold onRequestVote_follower. keeping; auto.
  apply keeps_assign. intros n0 Hn. exact Hn.
Qed.

Lemma forEach_call {A} (l : list A) (e : A -> Effect) n :
  forEach l (fun x => call (e x)) n = mkOutcome (Normal tt) n (map e l).
Proof.
  induction l as [|x l IH]; cbn.
  - reflexivity.
  - unfold bind. cbn. rewrite IH. reflexivity.
Qed.

(** Stopping every heartbeat timer: one [clearTimeout] per socket, and no
    timer left in the map. *)
Lemma stopHeartbeatTimeout_all n :
  stopHeartbeatTimeout None n =
  mkOutcome (Normal tt) (set_heartbeatTimeouts [] n)
    (map (fun p => clearTimeout (HeartbeatTimer p)) (Map_keys (sockets n))).
Proof.
  unfold stopHeartbeatTimeout. rewrite bind_this. unfold bind.
  rewrite forEach_call. cbn. rewrite app_nil_r. reflexivity.
Qed.

Lemma bind_outcome {A B} (m : M A) (k : A -> M B) n a n1 es :
  m n = mkOutcome (Normal a) n1 es ->
  node (bind m k n) = node (k a n1) /\
  effects (bind m k n) = es ++ effects (k a n1).
Proof. intros H. unfold bind. rewrite H. auto. Qed.

(** The timers that the block for a newer term stops first. *)
Lemma stop_timers_outcome n :
  exists n0 es0,
    (match state n with
     | LEADER => stopHeartbeatTimeout None
     | CANDIDATE => stopHeartbeatTimeout None ;; stopElectionTimeout
     | FOLLOWER => ret tt
     end) n = mkOutcome (Normal tt) n0 es0 /\
    (state n <> FOLLOWER -> heartbeatTimeouts n0 = []) /\
    (state n = CANDIDATE -> electionTimeout n0 = false).
Proof.
  destruct (state n) eqn:Hstate.
  - exists n, []. repeat split; [congruence|discriminate].
  - do 2 eexists. split.
    + unfold bind. rewrite stopHeartbeatTimeout_all. reflexivity.
    + split; reflexivity.
  - do 2 eexists. split; [apply stopHeartbeatTimeout_all|].
    split; [reflexivity|discriminate].
Qed.

(** The node that the block for a newer term leaves, for both handlers. *)
Lemma newTerm_node_AE args n :
  currentTerm n < AE.term args ->
  let n1 := node (onAppendEntries_newTerm args n) in
  state n1 = FOLLOWER /\
  leaderTimeout n1 = true /\
  currentLeaderId n1 = (if AE.isResponse args then None else Some (AE.senderId args)) /\
  (state n <> FOLLOWER -> heartbeatTimeouts n1 = []) /\
  (state n = CANDIDATE -> electionTimeout n1 = false) /\
  In disconnectSockets (effects (onAppendEntries_newTerm args n)).
Proof.
  intros Hterm n1. unfold n1, onAppendEntries_newTerm.
  rewrite bind_this, (gtb_true Hterm).
  destruct (stop_timers_outcome n) as (n0 & es0 & Hblock & Hh & He).
  destruct (bind_outcome _ (fun _ : unit =>
              assign (set_state FOLLOWER) ;;
              assign (set_currentLeaderId
                        (if AE.isResponse args then None else Some (AE.senderId args))) ;;
              assign (set_currentTerm (AE.term args)) ;;
              assign (set_lastMessageNum (-1)) ;;
              resetLeaderTimeout ;;
              call disconnectSockets) _ Hblock) as [Hnode Heffects].
  rewrite Hnode, Heffects. rewrite !bind_assign.
  rewrite in_app_iff. destruct n0; cbn in Hh, He |- *.
  repeat split; auto.
Qed.

Lemma newTerm_node_RV args n :
  currentTerm n < RV.term args ->
  let n1 := node (onRequestVote_newTerm args n) in
  state n1 = FOLLOWER /\
  leaderTimeout n1 = true /\
  currentLeaderId n1 = None /\
  votedFor n1 = None /\
  (state n <> FOLLOWER -> heartbeatTimeouts n1 = []) /\
  (state n = CANDIDATE -> electionTimeout n1 = false) /\
  In disconnectSockets (effects (onRequestVote_newTerm args n)).
Proof.
  intros Hterm n1. unfold n1, onRequestVote_newTerm.
  rewrite bind_this, (gtb_true Hterm).
  destruct (stop_timers_outcome n) as (n0 & es0 & Hblock & Hh & He).
  destruct (bind_outcome _ (fun _ : unit =>
              assign (set_state FOLLOWER) ;;
              assign (set_votedFor None) ;;
              assign (set_currentLeaderId None) ;;
              assign (set_currentTerm (RV.term args)) ;;
              assign (set_lastMessageNum (-1)) ;;
              resetLeaderTimeout ;;
              call disconnectSockets) _ Hblock) as [Hnode Heffects].
  rewrite Hnode, Heffects. rewrite !bind_assign.
  rewrite in_app_iff. destruct n0; cbn in Hh, He |- *.
  repeat split; auto.
Qed.

(** X2.  A message of a newer term, whatever the state of the node, leaves
    a follower whose leader timer is armed: a leader or a candidate has no
    heartbeat timer left, a candidate no election timer, and the web server
    is told to disconnect its clients.  The leader it knows afterwards is
    the sender of an AppendEntries request and nobody for a response or a
    RequestVote message. *)
Theorem newer_term_makes_follower m n :
  currentTerm n < termOf m ->
  let r := onMessage m n in
  state (node r) = FOLLOWER /\
  leaderTimeout (node r) = true /\
  currentLeaderId (node r) =
    match m with
    | APPENDENTRIES args =>
        if AE.isResponse args then None else Some (AE.senderId args)
    | REQUESTVOTE _ => None
    end /\
  (state n <> FOLLOWER -> heartbeatTimeouts (node r) = []) /\
  (state n = CANDIDATE -> electionTimeout (node r) = false) /\
  In disconnectSockets (effects r).
Proof.
  intros Hterm r. unfold r. destruct m as [args|args]; cbn [onMessage termOf] in *.
  - destruct (newTerm_node_AE args n Hterm) as (Hs & Ht & Hl & Hh & He & Hd).
    unfold onAppendEntriesMessage.
    rewrite (bind_node_normal _ _ n (a:=tt))
      by (apply returns_unit, onAppendEntries_newTerm_returns).
    rewrite (bind_effects_normal _ _ n (a:=tt))
      by (apply returns_unit, onAppendEntries_newTerm_returns).
    rewrite bind_this, Hs.
    rewrite (onAppendEntries_follower_preserves state) by reflexivity.
    rewrite (onAppendEntries_follower_preserves heartbeatTimeouts) by reflexivity.
    rewrite (onAppendEntries_follower_preserves electionTimeout) by reflexivity.
    rewrite onAppendEntries_follower_leader
      by (rewrite Hl; destruct (AE.isResponse args); [left; reflexivity|right; discriminate]).
    repeat split; auto.
    + apply onAppendEntries_follower_keeps_armed. exact Ht.
    + apply in_or_app. left. exact Hd.
  - destruct (newTerm_node_RV args n Hterm) as (Hs & Ht & Hl & _ & Hh & He & Hd).
    unfold onRequestVoteMessage.
    rewrite (bind_node_normal _ _ n (a:=tt))
      by (apply returns_unit, onRequestVote_newTerm_returns).
    rewrite (bind_effects_normal _ _ n (a:=tt))
      by (apply returns_unit, onRequestVote_newTerm_returns).
    rewrite bind_this, Hs.
    rewrite (onRequestVote_follower_preserves state) by reflexivity.
    rewrite (onRequestVote_follower_preserves heartbeatTimeouts) by reflexivity.
    rewrite (onRequestVote_follower_preserves electionTimeout) by reflexivity.
    rewrite (onRequestVote_follower_preserves currentLeaderId) by reflexivity.
    repeat split; auto.
    + apply onRequestVote_follower_keeps_armed. exact Ht.
    + apply in_or_app. left. exact Hd.
Qed.

Lemma newer_term_makes_follower_witness :
  state (node (onMessage (REQUESTVOTE (voteRequest "B" 7 3 (Some 1))) leaderOfFive))
  = FOLLOWER.
Proof.
  apply (@newer_term_makes_follower
           (REQUESTVOTE (voteRequest "B" 7 3 (Some 1))) leaderOfFive).
  reflexivity.
Defined.

(** ** Rules for the calls that a method never makes *)

Lemma makesNo_ret {A} bad (a : A) : makesNo bad (ret a).
Proof. intros n. reflexivity. Qed.

Lemma makesNo_this bad : makesNo bad this.
Proof. intros n. reflexivity. Qed.

Lemma makesNo_assign bad g : makesNo bad (assign g).
Proof. intros n. reflexivity. Qed.

Lemma makesNo_throw {A} bad s : makesNo bad (@throw A s).
Proof. intros n. reflexivity. Qed.

Lemma makesNo_call bad e : bad e = false -> makesNo bad (call e).
Proof. intros H n. cbn. rewrite H. reflexivity. Qed.

Lemma makesNo_bind {A B} bad (m : M A) (k : A -> M B) :
  makesNo bad m -> (forall a, makesNo bad (k a)) -> makesNo bad (bind m k).
Proof.
  intros Hm Hk n. unfold bind.
  destruct (completion (m n)) as [a|e]; cbn.
  - rewrite filter_app, Hm, Hk. reflexivity.
  - apply Hm.
Qed.

Lemma makesNo_forEach {A} bad (l : list A) body :
  (forall x, makesNo bad (body x)) -> makesNo bad (forEach l body).
Proof.
  intros H. induction l as [|x l IH]; cbn.
  - apply makesNo_ret.
  - apply makesNo_bind; auto.
Qed.

Ltac makesNo_step :=
  match goal with
  | |- makesNo _ (bind _ _) => apply makesNo_bind; [|intros ?]
  | |- makesNo _ (ret _) => apply makesNo_ret
  | |- makesNo _ break => apply makesNo_ret
  | |- makesNo _ this => apply makesNo_this
  | |- makesNo _ (call _) => apply makesNo_call; reflexivity
  | |- makesNo _ (assign _) => apply makesNo_assign
  | |- makesNo _ (throw _) => apply makesNo_throw
  | |- makesNo _ (forEach _ _) => apply makesNo_forEach; intros ?
  | |- makesNo _ (if ?b then _ else _) => destruct b
  | |- makesNo _ (match ?x with _ => _ end) => destruct x
  | |- makesNo _ (let (_, _) := ?x in _) => destruct x
  end.

Ltac quiet := repeat makesNo_step.
Ltac quiet_methods := autounfold with methods; quiet.

Lemma applyLogEntry_makesNo bad i :
  (forall c d, bad (dbQuery c d) = false) ->
  (forall h r, bad (callCallback h r) = false) ->
  (forall s, bad (rejectPromise s) = false) ->
  makesNo bad (applyLogEntry i).
Proof.
  intros Hq Hc Hr. unfold applyLogEntry.
  apply makesNo_bind; [apply makesNo_this|]. intros n.
  destruct (log_at (log n) i) as [e|]; [|apply makesNo_call, Hr].
  assert (Hfinish : makesNo bad
            (let (calls, logEntry') := applyLogEntry_finish e None in
             forEach calls call ;;
             assign (set_log (list_update (log n) (at_position (log n) i) logEntry')))).
  { unfold applyLogEntry_finish. destruct (callback e); cbn [forEach].
    - quiet. apply makesNo_call, Hc.
    - quiet. }
  destruct (commandType e); try (apply makesNo_call, Hr);
    (destruct (negb _); [apply makesNo_call, Hq|exact Hfinish]).
Qed.

Lemma applyLogEntries_makesNo bad :
  (forall c d, bad (dbQuery c d) = false) ->
  (forall h r, bad (callCallback h r) = false) ->
  (forall s, bad (rejectPromise s) = false) ->
  makesNo bad applyLogEntries.
Proof.
  intros Hq Hc Hr.
  assert (Hloop : forall count i, makesNo bad (applyLogEntries_loop count i)).
  { induction count as [|count IH]; intros i; cbn.
    - apply makesNo_ret.
    - apply makesNo_bind; [apply applyLogEntry_makesNo; assumption|intros _; apply IH]. }
  unfold applyLogEntries. quiet. apply Hloop.
Qed.

Lemma appendEntries_forEach_makesNo bad es : forall p i,
  makesNo bad (appendEntries_forEach p i es).
Proof.
  induction es as [|e rest IH]; intros p i; cbn.
  - apply makesNo_ret.
  - apply makesNo_bind; [|intros _; apply IH]. quiet_methods.
Qed.

(** An AppendEntries message never makes the node send a vote. *)
Lemma onAppendEntriesMessage_no_vote args :
  makesNo is_granted_vote (onAppendEntriesMessage args).
Proof.
  assert (Hloop := appendEntries_forEach_makesNo is_granted_vote).
  assert (Happly : makesNo is_granted_vote applyLogEntries)
    by (apply applyLogEntries_makesNo; reflexivity).
  unfold onAppendEntriesMessage, onAppendEntries_newTerm, onAppendEntries_follower,
    onAppendEntries_leader, onAppendEntries_candidate, onAppendEntries_accept,
    onAppendEntries_success.
  quiet_methods; auto.
Qed.

Lemma onRequestVote_candidate_no_vote args :
  makesNo is_granted_vote (onRequestVote_candidate args).
Proof. unfold onRequestVote_candidate, becomeLeader. quiet_methods. Qed.

Lemma onRequestVote_candidate_votedFor args :
  preserves votedFor (onRequestVote_candidate args).
Proof. unfold onRequestVote_candidate, becomeLeader. frame_methods. Qed.

(** One message that does not start a newer term: a vote is granted only
    by a node that had not voted, and leaves it with a vote. *)
Lemma vote_step m n :
  termOf m <= currentTerm n ->
  let r := onMessage m n in
  (votedFor n <> None ->
   votedFor (node r) <> None /\ grantedVotes (effects r) = 0%nat) /\
  (votedFor n = None ->
   grantedVotes (effects r) = 0%nat \/
   (grantedVotes (effects r) = 1%nat /\ votedFor (node r) <> None)).
Proof.
  intros Hterm r. unfold r, grantedVotes.
  destruct m as [args|args]; cbn [onMessage termOf] in *.
  - rewrite onAppendEntriesMessage_no_vote, onAppendEntriesMessage_votedFor.
    cbn. tauto.
  - rewrite onRequestVoteMessage_same_term by exact Hterm.
    destruct (state n).
    + destruct (RV.isResponse args) eqn:Hresp.
      { unfold onRequestVote_follower. rewrite bind_this, Hresp. cbn. tauto. }
      destruct (canVoteFor n args) eqn:Hcan.
      * rewrite onRequestVote_follower_grants by assumption. cbn.
        split.
        -- intros H. apply canVoteFor_iff in Hcan. tauto.
        -- intros _. right. split; [reflexivity|discriminate].
      * rewrite onRequestVote_follower_refuses by assumption. cbn. tauto.
    + rewrite onRequestVote_candidate_no_vote, onRequestVote_candidate_votedFor.
      cbn. tauto.
    + unfold onRequestVote_leader. rewrite bind_this.
      destruct (RV.isResponse args); cbn; tauto.
Qed.

Lemma older_message_keeps_term m n :
  termOf m <= currentTerm n ->
  currentTerm (node (onMessage m n)) = currentTerm n.
Proof.
  intros Hm. destruct m as [args|args]; cbn [onMessage termOf] in *.
  - unfold onAppendEntriesMessage.
    rewrite (bind_node_normal _ _ n (a:=tt))
      by (apply returns_unit, onAppendEntries_newTerm_returns).
    rewrite onAppendEntries_case_term, onAppendEntries_newTerm_term. lia.
  - unfold onRequestVoteMessage.
    rewrite (bind_node_normal _ _ n (a:=tt))
      by (apply returns_unit, onRequestVote_newTerm_returns).
    rewrite onRequestVote_case_term, onRequestVote_newTerm_term. lia.
Qed.

(** X3.  Whatever its state, a node that takes a sequence of messages none
    of which starts a newer term grants at most one vote, and none at all if
    it had already voted. *)
Theorem one_vote_per_term ms : forall n,
  Forall (fun m => termOf m <= currentTerm n) ms ->
  (grantedVotes (snd (deliver ms n)) <= 1)%nat /\
  (votedFor n <> None -> grantedVotes (snd (deliver ms n)) = 0%nat).
Proof.
  induction ms as [|m rest IH]; intros n Hterms; cbn [deliver].
  - cbn. split; [lia|reflexivity].
  - inversion Hterms as [|? ? Hm Hrest]; subst.
    destruct (vote_step m n Hm) as [Hvoted Hfree].
    assert (Hterm := older_message_keeps_term m n Hm).
    specialize (IH (node (onMessage m n))). rewrite Hterm in IH.
    destruct (IH Hrest) as [IHle IHzero].
    destruct (deliver rest (node (onMessage m n))) as [n' es]. cbn [snd] in *.
    unfold grantedVotes in *. rewrite filter_app, length_app.
    destruct (votedFor n) as [p|] eqn:Hv.
    + destruct Hvoted as [Hstill Hnone]; [discriminate|].
      rewrite Hnone, (IHzero Hstill). split; [lia|reflexivity].
    + split; [|intros H; contradiction].
      destruct (Hfree eq_refl) as [Hnone|[Hone Hstill]].
      * rewrite Hnone. lia.
      * rewrite Hone, (IHzero Hstill). lia.
Qed.

Lemma one_vote_per_term_witness :
  Nat.le
    (grantedVotes (snd (deliver [REQUESTVOTE (voteRequest "B" 4 4 (Some 3));
                                 REQUESTVOTE (voteRequest "C" 4 4 (Some 3))]
                          (voterOfTerm4 [1; 1; 1; 2; 3]))))
    1%nat.
Proof.
  apply (@one_vote_per_term
           [REQUESTVOTE (voteRequest "B" 4 4 (Some 3));
            REQUESTVOTE (voteRequest "C" 4 4 (Some 3))]
           (voterOfTerm4 [1; 1; 1; 2; 3])).
  repeat constructor; discriminate.
Defined.

(** ** Maps *)

Lemma Map_get_set_same {V} (m : JSMap V) k v : Map_get (Map_set k v m) k = Some v.
Proof.
  induction m as [|[k' v'] m IH]; cbn.
  - rewrite String.eqb_refl. reflexivity.
  - destruct (String.eqb k' k) eqn:E; cbn; rewrite E; [reflexivity|exact IH].
Qed.

Lemma Map_get_set_other {V} (m : JSMap V) k k' v :
  k <> k' -> Map_get (Map_set k v m) k' = Map_get m k'.
Proof.
  intros Hne. induction m as [|[k0 v0] m IH]; cbn.
  - destruct (String.eqb_spec k k'); [contradiction|reflexivity].
  - destruct (String.eqb_spec k0 k) as [->|Hk]; cbn.
    + destruct (String.eqb_spec k k'); [contradiction|reflexivity].
    + destruct (String.eqb k0 k'); [reflexivity|exact IH].
Qed.

Lemma Map_num_set_same m k v : Map_num (Map_set k v m) k = v.
Proof. unfold Map_num. rewrite Map_get_set_same. reflexivity. Qed.

Lemma Map_num_set_other m k k' v :
  k <> k' -> Map_num (Map_set k v m) k' = Map_num m k'.
Proof. intros H. unfold Map_num. rewrite Map_get_set_other by exact H. reflexivity. Qed.

(** Setting every key of a list to the same value. *)
Lemma Map_get_set_all {V} (l : list NodeId) (v : V) : forall m k,
  Map_get (fold_left (fun m p => Map_set p v m) l m) k =
  if in_dec string_dec k l then Some v else Map_get m k.
Proof.
  induction l as [|p l IH]; intros m k; cbn [fold_left].
  - destruct (in_dec string_dec k []) as [[]|]; reflexivity.
  - rewrite IH.
    destruct (in_dec string_dec k l) as [Hin|Hnot];
      destruct (in_dec string_dec k (p :: l)) as [Hin'|Hnot']; trivial.
    + exfalso. apply Hnot'. right. exact Hin.
    + destruct Hin' as [->|Hin']; [|contradiction].
      apply Map_get_set_same.
    + apply Map_get_set_other. intros ->. apply Hnot'. left. reflexivity.
Qed.

Lemma Map_get_key {V} (m : JSMap V) k :
  In k (Map_keys m) -> exists v, Map_get m k = Some v.
Proof.
  induction m as [|[k' v'] m IH]; cbn; [intros []|].
  intros [->|Hin].
  - rewrite String.eqb_refl. eauto.
  - destruct (String.eqb k' k); eauto.
Qed.

(** ** Loops of assignments and calls *)

Lemma forEach_steps {A} (l : list A) body (g : A -> RaftNode -> RaftNode)
    (e : A -> list Effect) :
  (forall x n, body x n = mkOutcome (Normal tt) (g x n) (e x)) ->
  forall n,
    forEach l body n =
    mkOutcome (Normal tt) (fold_left (fun n x => g x n) l n) (flat_map e l).
Proof.
  intros Hbody. induction l as [|x l IH]; intros n; cbn.
  - reflexivity.
  - unfold bind. rewrite Hbody. cbn. rewrite IH. reflexivity.
Qed.

Lemma flat_map_single {A B} (f : A -> B) (l : list A) :
  flat_map (fun x => [f x]) l = map f l.
Proof. induction l as [|x l IH]; cbn; [|rewrite IH]; reflexivity. Qed.

Lemma flat_map_none {A B} (l : list A) : flat_map (fun _ => @nil B) l = [].
Proof. induction l as [|x l IH]; cbn; trivial. Qed.

Lemma forEach_assigns {A} (l : list A) body (g : A -> RaftNode -> RaftNode) :
  (forall x n, body x n = mkOutcome (Normal tt) (g x n) []) ->
  forall n,
    forEach l body n = mkOutcome (Normal tt) (fold_left (fun n x => g x n) l n) [].
Proof.
  intros Hbody n. rewrite (forEach_steps l body g (fun _ => [])) by exact Hbody.
  rewrite flat_map_none. reflexivity.
Qed.

Lemma bind_known {A B} (m : M A) (k : A -> M B) n a n1 es :
  m n = mkOutcome (Normal a) n1 es ->
  bind m k n =
  mkOutcome (completion (k a n1)) (node (k a n1)) (es ++ effects (k a n1)).
Proof. intros H. unfold bind. rewrite H. reflexivity. Qed.

Lemma arm_all l : forall n,
  fold_left (fun n p => set_heartbeatTimeouts (Map_set p tt (heartbeatTimeouts n)) n) l n =
  set_heartbeatTimeouts (fold_left (fun m p => Map_set p tt m) l (heartbeatTimeouts n)) n.
Proof.
  induction l as [|p l IH]; intros n; cbn [fold_left].
  - destruct n. reflexivity.
  - rewrite IH. reflexivity.
Qed.

(** Re-arming every heartbeat timer, for a node that is not a follower:
    every timer of a socket is cleared and one timer is set per node of the
    configuration. *)
Lemma resetHeartbeatTimeout_all n :
  state n <> FOLLOWER ->
  resetHeartbeatTimeout None n =
  mkOutcome (Normal tt)
    (set_heartbeatTimeouts
       (fold_left (fun m p => Map_set p tt m) (map snd (otherNodes (config n))) []) n)
    (map (fun p => clearTimeout (HeartbeatTimer p)) (Map_keys (sockets n)) ++
     map (fun p => setTimeout (HeartbeatTimer p)) (map snd (otherNodes (config n)))).
Proof.
  intros Hstate. unfold resetHeartbeatTimeout, bind at 1.
  rewrite stopHeartbeatTimeout_all. cbn [completion node effects].
  unfold waitForHeartbeatTimeout. rewrite bind_this.
  assert (Harm : forall n0,
    forEach (map snd (otherNodes (config n))) armHeartbeat n0 =
    mkOutcome (Normal tt)
      (set_heartbeatTimeouts
         (fold_left (fun m p => Map_set p tt m) (map snd (otherNodes (config n)))
            (heartbeatTimeouts n0)) n0)
      (map (fun p => setTimeout (HeartbeatTimer p)) (map snd (otherNodes (config n))))).
  { intros n0.
    rewrite (forEach_steps _ armHeartbeat
               (fun p n => set_heartbeatTimeouts (Map_set p tt (heartbeatTimeouts n)) n)
               (fun p => [setTimeout (HeartbeatTimer p)]))
      by reflexivity.
    rewrite arm_all, flat_map_single. reflexivity. }
  cbn [state set_heartbeatTimeouts config].
  destruct (state n); try contradiction; rewrite Harm; reflexivity.
Qed.

Lemma init_all l : forall n,
  fold_left
    (fun n p =>
       set_lastSent (Map_set p (Num (Z.of_nat (List.length (log n)) - 1)) (lastSent n))
         (set_nextIndex (Map_set p (Num (Z.of_nat (List.length (log n)))) (nextIndex n))
            (set_matchIndex (Map_set p (Num (-1)) (matchIndex n)) n))) l n =
  set_lastSent
    (fold_left (fun m p => Map_set p (Num (Z.of_nat (List.length (log n)) - 1)) m) l
       (lastSent n))
    (set_nextIndex
       (fold_left (fun m p => Map_set p (Num (Z.of_nat (List.length (log n)))) m) l
          (nextIndex n))
       (set_matchIndex
          (fold_left (fun m p => Map_set p (Num (-1)) m) l (matchIndex n)) n)).
Proof.
  induction l as [|p l IH]; intros n; cbn [fold_left].
  - destruct n. reflexivity.
  - rewrite IH. reflexivity.
Qed.

Lemma zero_all l : forall n,
  fold_left (fun n p => set_nodeIdToMessageNum (Map_set p (Num 0) (nodeIdToMessageNum n)) n)
    l n =
  set_nodeIdToMessageNum
    (fold_left (fun m p => Map_set p (Num 0) m) l (nodeIdToMessageNum n)) n.
Proof.
  induction l as [|p l IH]; intros n; cbn [fold_left].
  - destruct n. reflexivity.
  - rewrite IH. reflexivity.
Qed.

(** The whole of the change of a candidate into the leader. *)
Lemma becomeLeader_outcome n :
  becomeLeader n =
  mkOutcome (Normal tt)
    (set_electionTimeout false
       (set_heartbeatTimeouts
          (fold_left (fun m p => Map_set p tt m) (map snd (otherNodes (config n))) [])
          (set_lastSent
             (fold_left (fun m p => Map_set p (Num (Z.of_nat (List.length (log n)) - 1)) m)
                (Map_keys (sockets n)) (lastSent n))
             (set_nextIndex
                (fold_left (fun m p => Map_set p (Num (Z.of_nat (List.length (log n)))) m)
                   (Map_keys (sockets n)) (nextIndex n))
                (set_matchIndex
                   (fold_left (fun m p => Map_set p (Num (-1)) m)
                      (Map_keys (sockets n)) (matchIndex n))
                   (set_nodeIdToMessageNum
                      (fold_left (fun m p => Map_set p (Num 0) m)
                         (Map_keys (nodeIdToMessageNum n)) (nodeIdToMessageNum n))
                      (set_state LEADER n)))))))
    (sendReplication 0 (currentTerm n) (Z.of_nat (List.length (log n)) - 1)
       (lastLogTermOf (log n)) [] (commitIndex n)
     :: map (fun p => clearTimeout (HeartbeatTimer p)) (Map_keys (sockets n))
     ++ map (fun p => setTimeout (HeartbeatTimer p)) (map snd (otherNodes (config n)))
     ++ [clearTimeout ElectionTimer]).
Proof.
  unfold becomeLeader. rewrite bind_assign, bind_this.
  erewrite bind_known
    by (apply (@forEach_assigns NodeId _ _
                 (fun p n => set_nodeIdToMessageNum
                               (Map_set p (Num 0) (nodeIdToMessageNum n)) n));
        reflexivity).
  rewrite zero_all.
  erewrite bind_known
    by (apply (@forEach_assigns NodeId _ _
                 (fun p n =>
                    set_lastSent
                      (Map_set p (Num (Z.of_nat (List.length (log n)) - 1)) (lastSent n))
                      (set_nextIndex
                         (Map_set p (Num (Z.of_nat (List.length (log n)))) (nextIndex n))
                         (set_matchIndex (Map_set p (Num (-1)) (matchIndex n)) n))));
        reflexivity).
  rewrite init_all.
  erewrite (@bind_known _ _ (call _)) by reflexivity.
  erewrite bind_known by (apply resetHeartbeatTimeout_all; cbn; discriminate).
  cbn. rewrite <- app_assoc. reflexivity.
Qed.

(** ** The candidate and its votes *)

Lemma Map_keys_set {V} (m : JSMap V) k v q :
  In q (Map_keys (Map_set k v m)) <-> q = k \/ In q (Map_keys m).
Proof.
  induction m as [|[k' v'] m IH]; cbn.
  - intuition congruence.
  - destruct (String.eqb_spec k' k) as [->|Hne]; cbn.
    + intuition congruence.
    + rewrite IH. intuition congruence.
Qed.

Lemma sockets_keys n q :
  In q (Map_keys (sockets n)) <-> In q (map snd (otherNodes (config n))).
Proof.
  unfold sockets.
  assert (H : forall (l : list (string * NodeId)) (m : JSMap unit),
             In q (Map_keys (fold_left (fun m p => Map_set (snd p) tt m) l m)) <->
             In q (map snd l) \/ In q (Map_keys m)).
  { induction l as [|x l IH]; intros m; cbn [fold_left map].
    - cbn. tauto.
    - rewrite IH, Map_keys_set. cbn. intuition congruence. }
  rewrite H. cbn. tauto.
Qed.

Lemma becomeLeader_returns : returns becomeLeader.
Proof. intros n. rewrite becomeLeader_outcome. eexists. reflexivity. Qed.

Lemma onRequestVote_candidate_response args n :
  RV.isResponse args = true ->
  onRequestVote_candidate args n =
  let n1 := set_heartbeatTimeouts (Map_delete (RV.senderId args) (heartbeatTimeouts n)) n in
  let stop := clearTimeout (HeartbeatTimer (RV.senderId args)) in
  if RV.voteGranted args then
    let n2 := set_votesGathered (votesGathered n + 1) n1 in
    if votesGathered n + 1 >? clusterSize n / 2 then
      mkOutcome (completion (becomeLeader n2)) (node (becomeLeader n2))
        (stop :: effects (becomeLeader n2))
    else mkOutcome (Normal tt) n2 [stop]
  else mkOutcome (Normal tt) n1 [stop].
Proof.
  intros Hresp. unfold onRequestVote_candidate. rewrite bind_this, Hresp.
  erewrite bind_known by reflexivity. cbv zeta.
  destruct (RV.voteGranted args); [|reflexivity].
  rewrite bind_assign, bind_this. cbn [votesGathered set_votesGathered].
  change (clusterSize (set_votesGathered _ _)) with (clusterSize n).
  destruct (_ >? _); reflexivity.
Qed.

(** X4.  A candidate that handles a RequestVote response of its term (or
    of an older one) returns; on a granted vote it is the leader afterwards
    exactly when the votes it had plus this one exceed floor(clusterSize/2),
    and a candidate still otherwise; on a refused vote it only stops the
    heartbeat timer of the sender. *)
Theorem candidate_needs_majority n args :
  state n = CANDIDATE ->
  RV.term args <= currentTerm n ->
  RV.isResponse args = true ->
  let r := onRequestVoteMessage args n in
  completion r = Normal tt /\
  (RV.voteGranted args = true ->
   state (node r) =
     if votesGathered n + 1 >? clusterSize n / 2 then LEADER else CANDIDATE) /\
  (RV.voteGranted args = false ->
   r = mkOutcome (Normal tt)
         (set_heartbeatTimeouts (Map_delete (RV.senderId args) (heartbeatTimeouts n)) n)
         [clearTimeout (HeartbeatTimer (RV.senderId args))]).
Proof.
  intros Hstate Hterm Hresp r. unfold r.
  rewrite onRequestVoteMessage_same_term by exact Hterm. rewrite Hstate.
  rewrite onRequestVote_candidate_response by exact Hresp. cbv zeta.
  destruct (RV.voteGranted args).
  - destruct (_ >? _).
    + rewrite becomeLeader_outcome. cbn. repeat split; discriminate.
    + cbn. repeat split; trivial; discriminate.
  - cbn. repeat split; discriminate.
Qed.

Lemma candidate_needs_majority_witness :
  state (node (onRequestVoteMessage (voteFrom "B" 2) candidateOfFive)) = CANDIDATE.
Proof.
  assert (Hterm : RV.term (voteFrom "B" 2) <= currentTerm candidateOfFive)
    by discriminate.
  exact (proj1 (proj2 (@candidate_needs_majority candidateOfFive (voteFrom "B" 2)
                         eq_refl Hterm eq_refl)) eq_refl).
Defined.

(** X5.  The candidate that wins, by a granted vote that takes its count
    above floor(clusterSize/2), starts its term as the leader with, for
    every node [p] of the configuration, matchIndex[p] = -1,
    nextIndex[p] = log.length, lastSent[p] = log.length - 1 and an armed
    heartbeat timer, with every message counter at 0 and the election timer
    stopped; it broadcasts one empty AppendEntries request that carries its
    last index, its last term and its commit index, and its log, commit
    index, applied index and term are what they were. *)
Theorem winner_starts_as_leader n args :
  state n = CANDIDATE ->
  RV.term args <= currentTerm n ->
  RV.isResponse args = true ->
  RV.voteGranted args = true ->
  clusterSize n / 2 < votesGathered n + 1 ->
  let r := onRequestVoteMessage args n in
  let len := Z.of_nat (List.length (log n)) in
  completion r = Normal tt /\
  state (node r) = LEADER /\
  (forall p, In p (map snd (otherNodes (config n))) ->
     Map_num (matchIndex (node r)) p = Num (-1) /\
     Map_num (nextIndex (node r)) p = Num len /\
     Map_num (lastSent (node r)) p = Num (len - 1) /\
     Map_get (heartbeatTimeouts (node r)) p = Some tt) /\
  (forall p, In p (Map_keys (nodeIdToMessageNum n)) ->
     Map_num (nodeIdToMessageNum (node r)) p = Num 0) /\
  electionTimeout (node r) = false /\
  In (sendReplication 0 (currentTerm n) (len - 1) (lastLogTermOf (log n)) []
        (commitIndex n)) (effects r) /\
  log (node r) = log n /\
  commitIndex (node r) = commitIndex n /\
  lastApplied (node r) = lastApplied n /\
  currentTerm (node r) = currentTerm n.
Proof.
  intros Hstate Hterm Hresp Hgranted Hmajority r len. unfold r.
  rewrite onRequestVoteMessage_same_term by exact Hterm. rewrite Hstate.
  rewrite onRequestVote_candidate_response by exact Hresp. cbv zeta.
  rewrite Hgranted, (gtb_true Hmajority), becomeLeader_outcome.
  cbn [completion node effects state matchIndex nextIndex lastSent heartbeatTimeouts
       nodeIdToMessageNum electionTimeout log commitIndex lastApplied currentTerm
       set_electionTimeout set_heartbeatTimeouts set_lastSent set_nextIndex
       set_matchIndex set_nodeIdToMessageNum set_state set_votesGathered config].
  change (sockets (set_votesGathered _ _)) with (sockets n).
  repeat split.
  - unfold Map_num. rewrite Map_get_set_all.
    destruct (in_dec string_dec p (Map_keys (sockets n))) as [|Hnot]; [reflexivity|].
    exfalso. apply Hnot, sockets_keys. assumption.
  - unfold Map_num. rewrite Map_get_set_all.
    destruct (in_dec string_dec p (Map_keys (sockets n))) as [|Hnot]; [reflexivity|].
    exfalso. apply Hnot, sockets_keys. assumption.
  - unfold Map_num. rewrite Map_get_set_all.
    destruct (in_dec string_dec p (Map_keys (sockets n))) as [|Hnot]; [reflexivity|].
    exfalso. apply Hnot, sockets_keys. assumption.
  - rewrite Map_get_set_all.
    destruct (in_dec string_dec p (map snd (otherNodes (config n)))); [reflexivity|].
    contradiction.
  - intros p Hp. unfold Map_num. rewrite Map_get_set_all.
    destruct (in_dec string_dec p (Map_keys (nodeIdToMessageNum n))); [reflexivity|].
    contradiction.
  - right. left. reflexivity.
Qed.

Lemma winner_starts_as_leader_witness :
  state (node (onRequestVoteMessage (voteFrom "C" 2)
                 (node (onRequestVoteMessage (voteFrom "B" 2) candidateOfFive))))
  = LEADER.
Proof.
  assert (Hterm : RV.term (voteFrom "C" 2) <=
                  currentTerm (node (onRequestVoteMessage (voteFrom "B" 2) candidateOfFive)))
    by discriminate.
  assert (Hmajority :
            clusterSize (node (onRequestVoteMessage (voteFrom "B" 2) candidateOfFive)) / 2 <
            votesGathered (node (onRequestVoteMessage (voteFrom "B" 2) candidateOfFive)) + 1)
    by reflexivity.
  exact (proj1 (proj2 (@winner_starts_as_leader
                         (node (onRequestVoteMessage (voteFrom "B" 2) candidateOfFive))
                         (voteFrom "C" 2) eq_refl Hterm eq_refl eq_refl Hmajority))).
Defined.

(** X6.  [onRequestVoteMessage] returns for every node and every message:
    none of its paths throws, and in particular it re-arms the heartbeat
    timers only as a leader. *)
Theorem onRequestVoteMessage_returns args n :
  completion (onRequestVoteMessage args n) = Normal tt.
Proof.
  apply returns_unit.
  assert (Hleader := becomeLeader_returns).
  unfold onRequestVoteMessage, onRequestVote_newTerm, onRequestVote_follower,
    onRequestVote_leader, onRequestVote_candidate.
  returning; auto;
    unfold resetLeaderTimeout, stopLeaderTimeout, waitForLeaderTimeout,
      stopElectionTimeout, stopHeartbeatTimeout;
    returning.
Qed.

(** ** Exceptions *)

(** Re-arming the heartbeat timer of one node, for a node that is not a
    follower. *)
Lemma resetHeartbeatTimeout_one p n :
  state n <> FOLLOWER ->
  resetHeartbeatTimeout (Some p) n =
  mkOutcome (Normal tt)
    (set_heartbeatTimeouts (Map_set p tt (Map_delete p (heartbeatTimeouts n))) n)
    [clearTimeout (HeartbeatTimer p); setTimeout (HeartbeatTimer p)].
Proof.
  intros Hstate. unfold resetHeartbeatTimeout, stopHeartbeatTimeout.
  erewrite bind_known by reflexivity.
  unfold waitForHeartbeatTimeout. rewrite bind_this.
  destruct n; cbn in Hstate |- *.
  match goal with H : ?s <> FOLLOWER |- _ => destruct s end;
    try contradiction; reflexivity.
Qed.

Lemma onAppendEntries_follower_returns args : returns (onAppendEntries_follower args).
Proof.
  unfold onAppendEntries_follower, onAppendEntries_accept.
  returning;
    auto using appendEntries_forEach_returns, applyLogEntries_returns;
    unfold resetLeaderTimeout, stopLeaderTimeout, waitForLeaderTimeout; returning.
Qed.

(** The reading of [this.log[prevLogIndex].term] in the leader's handling of
    a successful response, with [prevLogIndex = lastSent[p] + 1 - 1]. *)
Lemma prevLogTerm_of_lastSent (l : list LogRecord) (x : jsnum) n0 :
  let prevLogIndex := js_add (js_add x 1) (-1) in
  let read : M (option Z) :=
    if js_ge0 prevLogIndex then
      match prevLogIndex with
      | Num i =>
          match log_get l i with
          | Some r => ret (Some (term r))
          | None => throw "TypeError: Cannot read properties of undefined (reading 'term')"
          end
      | _ => ret None
      end
    else ret None in
  ((exists z, x = Num z /\ Z.of_nat (List.length l) <= z) /\
   read n0 = throw "TypeError: Cannot read properties of undefined (reading 'term')" n0) \/
  (~ (exists z, x = Num z /\ Z.of_nat (List.length l) <= z) /\
   exists t, read n0 = ret t n0).
Proof.
  cbv zeta. destruct x as [z| |]; cbn [js_add js_ge0].
  2, 3: right; split; [intros (z & H & _); discriminate|eexists; reflexivity].
  destruct (z + 1 + -1 >=? 0) eqn:Hge.
  - unfold log_get.
    replace (z + 1 + -1 <? 0) with false by (symmetry; apply Z.ltb_ge; lia).
    destruct (nth_error l (Z.to_nat (z + 1 + -1))) as [r|] eqn:Hnth.
    + right. split; [|eexists; reflexivity].
      intros (z' & Hz & Hlen). injection Hz as <-.
      assert (nth_error l (Z.to_nat (z + 1 + -1)) = None)
        by (apply nth_error_None; lia).
      congruence.
    + left. split; [|reflexivity]. exists z. split; [reflexivity|].
      apply nth_error_None in Hnth. lia.
  - right. split; [|eexists; reflexivity].
    intros (z' & Hz & Hlen). injection Hz as <-. lia.
Qed.

Lemma onAppendEntries_success_completion args n :
  state n = LEADER ->
  let p := AE.senderId args in
  let n1 :=
    set_nodeIdToMessageNum
      (Map_set p (js_add (Map_num (nodeIdToMessageNum n) p) 1) (nodeIdToMessageNum n))
      (set_nextIndex (Map_set p (js_add (Map_num (lastSent n) p) 1) (nextIndex n))
         (set_matchIndex (Map_set p (Map_num (lastSent n) p) (matchIndex n)) n)) in
  ((exists z, Map_num (lastSent n) p = Num z /\ Z.of_nat (List.length (log n)) <= z) /\
   onAppendEntries_success args n =
   mkOutcome (Throw "TypeError: Cannot read properties of undefined (reading 'term')")
     n1 []) \/
  (~ (exists z, Map_num (lastSent n) p = Num z /\ Z.of_nat (List.length (log n)) <= z) /\
   completion (onAppendEntries_success args n) = Normal tt).
Proof.
  intros Hstate p n1. unfold onAppendEntries_success.
  rewrite !bind_assign, bind_this. fold p.
  cbn [nextIndex set_nodeIdToMessageNum set_nextIndex set_matchIndex lastSent log
       nodeIdToMessageNum matchIndex].
  rewrite Map_num_set_same.
  match goal with
  | |- context [bind _ _ ?n0] => fold n1
  end.
  destruct (prevLogTerm_of_lastSent (log n) (Map_num (lastSent n) p) n1)
    as [[Hcond Hread]|[Hcond [t Hread]]]; cbv zeta in Hread.
  - left. split; [exact Hcond|]. unfold bind at 1. rewrite Hread. reflexivity.
  - right. split; [exact Hcond|]. unfold bind at 1. rewrite Hread.
    cbn [ret completion node effects app].
    rewrite bind_assign, bind_this.
    match goal with
    | |- completion (bind ?m _ ?n2) = _ =>
        assert (Hm : completion (m n2) = Normal tt)
    end.
    { destruct (_ >? _); [|reflexivity].
      erewrite (@bind_known _ _ (call _)) by reflexivity.
      rewrite bind_assign.
      rewrite resetHeartbeatTimeout_one by (cbn; rewrite Hstate; discriminate).
      reflexivity. }
    rewrite (bind_completion_normal _ _ _ Hm).
    apply returns_unit, applyLogEntries_returns.
Qed.

(** X7.  [onAppendEntriesMessage] throws in one case only: a leader that
    handles a successful response of its term (or of an older one) from a
    node [p] for which lastSent[p] is a number not below the length of its
    log.  It then stops with matchIndex[p], nextIndex[p] and the message
    counter of [p] already updated, the commit index untouched and nothing
    sent.  In every other case the handler returns. *)
Theorem onAppendEntriesMessage_throws args n :
  let p := AE.senderId args in
  let stuck :=
    state n = LEADER /\ AE.term args <= currentTerm n /\
    AE.isResponse args = true /\ AE.success args = true /\
    exists z, Map_num (lastSent n) p = Num z /\ Z.of_nat (List.length (log n)) <= z in
  (stuck ->
   onAppendEntriesMessage args n =
   mkOutcome (Throw "TypeError: Cannot read properties of undefined (reading 'term')")
     (set_nodeIdToMessageNum
        (Map_set p (js_add (Map_num (nodeIdToMessageNum n) p) 1) (nodeIdToMessageNum n))
        (set_nextIndex (Map_set p (js_add (Map_num (lastSent n) p) 1) (nextIndex n))
           (set_matchIndex (Map_set p (Map_num (lastSent n) p) (matchIndex n)) n)))
     []) /\
  (~ stuck -> completion (onAppendEntriesMessage args n) = Normal tt).
Proof.
  intros p stuck. unfold stuck. clear stuck.
  destruct (Z_lt_le_dec (currentTerm n) (AE.term args)) as [Hnew|Hterm].
  - split; [intros (_ & H & _); lia|]. intros _.
    destruct (newTerm_node_AE args n Hnew) as (Hs & _).
    unfold onAppendEntriesMessage.
    rewrite (bind_completion_normal _ _ n (a:=tt))
      by (apply returns_unit, onAppendEntries_newTerm_returns).
    rewrite bind_this, Hs.
    apply returns_unit, onAppendEntries_follower_returns.
  - rewrite onAppendEntriesMessage_same_term by exact Hterm.
    destruct (state n) eqn:Hstate.
    + split; [intros (H & _); discriminate|]. intros _.
      apply returns_unit, onAppendEntries_follower_returns.
    + split; [intros (H & _); discriminate|]. intros _.
      unfold onAppendEntries_candidate. rewrite bind_this.
      destruct (AE.isResponse args); reflexivity.
    + unfold onAppendEntries_leader. rewrite bind_this.
      destruct (AE.isResponse args) eqn:Hresp; cbn [negb].
      2: { split; [intros (_ & _ & H & _); discriminate|reflexivity]. }
      destruct (AE.success args) eqn:Hsuccess.
      * destruct (onAppendEntries_success_completion args n Hstate)
          as [[Hcond Hthrow]|[Hcond Hreturn]].
        -- split; [intros _; exact Hthrow|]. intros H. exfalso. apply H. tauto.
        -- split; [|intros _; exact Hreturn].
           intros (_ & _ & _ & _ & H). contradiction.
      * split; [intros (_ & _ & _ & H & _); discriminate|]. intros _.
        rewrite bind_assign.
        rewrite resetHeartbeatTimeout_one by (cbn; rewrite Hstate; discriminate).
        reflexivity.
Qed.

Lemma onAppendEntriesMessage_throws_witness :
  completion (onAppendEntriesMessage (successFrom "B" 2)
                (set_lastSent [("B", Num 11); ("C", Num 10)] leaderOfThree)) =
  Throw "TypeError: Cannot read properties of undefined (reading 'term')".
Proof.
  rewrite (proj1 (onAppendEntriesMessage_throws (successFrom "B" 2)
                    (set_lastSent [("B", Num 11); ("C", Num 10)] leaderOfThree))).
  - reflexivity.
  - split; [reflexivity|]. split; [cbn; lia|]. split; [reflexivity|].
    split; [reflexivity|]. exists 11. split; [reflexivity|]. cbn. lia.
Defined.

(** ** The log under the applier and under the loop over the entries *)

Lemma log_at_position l i e :
  log_at l i = Some e -> nth_error l (at_position l i) = Some e.
Proof.
  unfold log_at, at_position, log_get.
  destruct (i <? 0) eqn:Hneg.
  - destruct (Z.of_nat (List.length l) + i <? 0); [discriminate|]. trivial.
  - trivial.
Qed.

Lemma list_update_content l k e e' :
  nth_error l k = Some e -> content e' = content e ->
  map content (list_update l k e') = map content l.
Proof.
  revert k. induction l as [|x l IH]; intros [|k] Hnth Hc; cbn in *; try discriminate.
  - injection Hnth as ->. rewrite Hc. reflexivity.
  - f_equal. apply IH; assumption.
Qed.

Lemma applyLogEntry_content i :
  preserves (fun n => map content (log n)) (applyLogEntry i).
Proof.
  intros n. unfold applyLogEntry. rewrite bind_this.
  destruct (log_at (log n) i) as [e|] eqn:Hat; [|reflexivity].
  assert (Hfinish :
    map content
      (log (node ((let (calls, logEntry') := applyLogEntry_finish e None in
                   forEach calls call ;;
                   assign (set_log (list_update (log n) (at_position (log n) i)
                                      logEntry'))) n)))
    = map content (log n)).
  { unfold applyLogEntry_finish. destruct (callback e); cbn.
    - apply (list_update_content _ _ (log_at_position _ _ Hat)). reflexivity.
    - apply (list_update_content _ _ (log_at_position _ _ Hat)). reflexivity. }
  destruct (commandType e); try reflexivity;
    (destruct (negb _); [reflexivity|exact Hfinish]).
Qed.

Lemma applyLogEntries_loop_content count : forall i,
  preserves (fun n => map content (log n)) (applyLogEntries_loop count i).
Proof.
  induction count as [|count IH]; intros i; cbn.
  - apply preserves_ret.
  - apply preserves_bind; [apply applyLogEntry_content|intros _; apply IH].
Qed.

(** The applier changes nothing of a record but its callback. *)
Lemma applyLogEntries_content :
  preserves (fun n => map content (log n)) applyLogEntries.
Proof.
  unfold applyLogEntries. apply preserves_bind; [apply preserves_this|]. intros n.
  destruct (commitIndex n); try apply preserves_ret.
  destruct (_ >? _); [|apply preserves_ret].
  apply preserves_bind; [apply applyLogEntries_loop_content|].
  intros _. apply preserves_assign. reflexivity.
Qed.

Lemma content_length n n' :
  map content (log n') = map content (log n) ->
  List.length (log n') = List.length (log n).
Proof. intros H. rewrite <- (length_map content), H. apply length_map. Qed.

(** The applied index after a run of the applier. *)
Lemma applyLogEntries_lastApplied n :
  lastApplied (node (applyLogEntries n)) =
  match commitIndex n with
  | Num c => Z.max c (lastApplied n)
  | _ => lastApplied n
  end.
Proof.
  destruct (commitIndex n) as [c| |] eqn:Hc.
  - destruct (Z_lt_le_dec (lastApplied n) c) as [Hlt|Hle].
    + rewrite (applyLogEntries_something _ Hc Hlt).
      rewrite (bind_node_normal _ _ n (a:=tt))
        by (apply returns_unit, applyLogEntries_loop_returns).
      cbn. lia.
    + rewrite applyLogEntries_nothing by (rewrite Hc; cbn; apply gtb_false; exact Hle).
      cbn. lia.
  - rewrite applyLogEntries_nothing by (rewrite Hc; reflexivity). reflexivity.
  - rewrite applyLogEntries_nothing by (rewrite Hc; reflexivity). reflexivity.
Qed.

Lemma withinLog_same n n' :
  List.length (log n') = List.length (log n) ->
  commitIndex n' = commitIndex n ->
  lastApplied n' = lastApplied n ->
  withinLog n -> withinLog n'.
Proof.
  intros Hlog Hc Ha (c & H1 & H2 & H3 & H4). exists c.
  rewrite Hlog, Hc, Ha. auto.
Qed.

Lemma applyLogEntries_withinLog : keeps withinLog applyLogEntries.
Proof.
  intros n (c & Hc & Hlow & Hle & Hlen). exists c.
  rewrite (applyLogEntries_frame commitIndex) by reflexivity.
  rewrite applyLogEntries_lastApplied, Hc.
  rewrite (content_length _ _ (applyLogEntries_content n)).
  repeat split; trivial; lia.
Qed.

(** The two ways of [appendEntry]. *)
Lemma appendEntry_append j e n :
  (forall old, log_get (log n) j = Some old -> term old = term e) ->
  appendEntry j e n = mkOutcome (Normal tt) (set_log (log n ++ [e]) n) [].
Proof.
  intros H. unfold appendEntry. rewrite bind_this.
  destruct (log_get (log n) j) as [old|] eqn:Hget.
  - rewrite (H old eq_refl), Z.eqb_refl. reflexivity.
  - reflexivity.
Qed.

Lemma appendEntry_cases j e n :
  (appendEntry j e n = mkOutcome (Normal tt) (set_log (log n ++ [e]) n) []) \/
  (0 <= j < Z.of_nat (List.length (log n)) /\
   appendEntry j e n =
   mkOutcome (Normal tt)
     (set_log (firstn (Z.to_nat j) (log n) ++ [e])
        (set_lastApplied (Z.min (j - 1) (lastApplied n))
           (set_commitIndex (Num (j - 1)) n))) []).
Proof.
  destruct (log_get (log n) j) as [old|] eqn:Hget.
  - destruct (Z.eq_dec (term old) (term e)) as [Heq|Hne].
    + left. apply appendEntry_append. intros old' H. congruence.
    + right. unfold log_get in Hget.
      destruct (j <? 0) eqn:Hneg; [discriminate|]. apply Z.ltb_ge in Hneg.
      assert (Hlt : (Z.to_nat j < List.length (log n))%nat)
        by (apply nth_error_Some; congruence).
      split; [lia|].
      unfold appendEntry. rewrite bind_this.
      unfold log_get. replace (j <? 0) with false by (symmetry; apply Z.ltb_ge; lia).
      rewrite Hget. apply Z.eqb_neq in Hne. rewrite Hne. cbn.
      rewrite length_firstn, Nat.min_l by lia.
      replace (Z.of_nat (Z.to_nat j) - 1) with (j - 1) by lia. reflexivity.
  - left. apply appendEntry_append. intros old H. congruence.
Qed.

Lemma appendEntry_withinLog j e : keeps withinLog (appendEntry j e).
Proof.
  intros n (c & Hc & Hlow & Hle & Hlen).
  destruct (appendEntry_cases j e n) as [H|[Hj H]]; rewrite H; cbn.
  - exists c. cbn. rewrite length_app. cbn. repeat split; trivial; lia.
  - exists (j - 1). cbn. rewrite length_app, length_firstn. cbn.
    repeat split; trivial; lia.
Qed.

Lemma appendEntries_forEach_withinLog es : forall p i,
  keeps withinLog (appendEntries_forEach p i es).
Proof.
  induction es as [|e rest IH]; intros p i; cbn.
  - apply keeps_ret.
  - apply keeps_bind; [apply appendEntry_withinLog|intros _; apply IH].
Qed.

(** The records below the place of the first entry stay. *)
Lemma appendEntry_prefix j e n k :
  (k <= List.length (log n))%nat -> Z.of_nat k <= j ->
  firstn k (log (node (appendEntry j e n))) = firstn k (log n) /\
  (k <= List.length (log (node (appendEntry j e n))))%nat.
Proof.
  intros Hk Hj.
  destruct (appendEntry_cases j e n) as [H|[Hrange H]]; rewrite H; cbn.
  - rewrite length_app, firstn_app.
    replace (k - List.length (log n))%nat with 0%nat by lia.
    cbn. rewrite app_nil_r. split; [reflexivity|lia].
  - rewrite length_app, length_firstn, firstn_app, length_firstn.
    replace (k - Nat.min (Z.to_nat j) (List.length (log n)))%nat with 0%nat by lia.
    cbn. rewrite app_nil_r, firstn_firstn.
    replace (Nat.min k (Z.to_nat j)) with k by lia.
    split; [reflexivity|lia].
Qed.

Lemma appendEntries_forEach_prefix es k p : forall i n,
  (k <= List.length (log n))%nat -> Z.of_nat k <= p + i + 1 -> 0 <= i ->
  firstn k (log (node (appendEntries_forEach p i es n))) = firstn k (log n) /\
  (k <= List.length (log (node (appendEntries_forEach p i es n))))%nat.
Proof.
  induction es as [|e rest IH]; intros i n Hk Hj Hi; cbn [appendEntries_forEach].
  - cbn. auto.
  - destruct (@appendEntry_prefix (p + i + 1) e n k Hk Hj) as [Hfirst Hlen].
    assert (Hreturn : completion (appendEntry (p + i + 1) e n) = Normal tt).
    { destruct (appendEntry_cases (p + i + 1) e n) as [H|[_ H]]; rewrite H; reflexivity. }
    rewrite (bind_node_normal _ _ n Hreturn).
    destruct (IH (i + 1) (node (appendEntry (p + i + 1) e n)) Hlen) as [IH1 IH2];
      try lia.
    rewrite IH1. auto.
Qed.

(** ** The accepted request, step by step *)

Lemma entries_guard p es n :
  (if Z.of_nat (List.length es) >? 0 then appendEntries_forEach p 0 es else ret tt) n =
  appendEntries_forEach p 0 es n.
Proof. destruct es; reflexivity. Qed.

(** The node after an accepted request: the number of the message is
    recorded, the entries are put in the log, the commit index follows
    [leaderCommit], the applier runs and the leader timer is armed again. *)
Lemma onAppendEntries_accept_node args n :
  let na := node (appendEntries_forEach (AE.prevLogIndex args) 0 (AE.entries args)
                    (set_lastMessageNum (AE.messageNum args) n)) in
  let nc :=
    if js_gt (AE.leaderCommit args) (commitIndex na) then
      set_commitIndex
        (match AE.leaderCommit args with
         | Num lc => Num (Z.min lc (Z.of_nat (List.length (log na)) - 1))
         | _ => NaN
         end) na
    else na in
  node (onAppendEntries_accept args n) = set_leaderTimeout true (node (applyLogEntries nc)).
Proof.
  cbv zeta. unfold onAppendEntries_accept. rewrite bind_this, bind_assign.
  match goal with
  | |- node (bind ?m ?k ?n0) = _ =>
      replace (bind m k n0)
        with (bind (appendEntries_forEach (AE.prevLogIndex args) 0 (AE.entries args)) k n0)
        by (unfold bind; rewrite entries_guard; reflexivity)
  end.
  rewrite (bind_node_normal _ _ _ (a:=tt))
    by (apply returns_unit, appendEntries_forEach_returns).
  rewrite bind_this.
  set (na := node (appendEntries_forEach _ _ _ _)).
  destruct (js_gt (AE.leaderCommit args) (commitIndex na)).
  - rewrite bind_assign.
    rewrite (bind_node_normal _ _ _ (a:=tt))
      by (apply returns_unit, applyLogEntries_returns).
    rewrite bind_this. reflexivity.
  - rewrite bind_ret.
    rewrite (bind_node_normal _ _ _ (a:=tt))
      by (apply returns_unit, applyLogEntries_returns).
    rewrite bind_this. reflexivity.
Qed.

Lemma onAppendEntries_accept_withinLog args : keeps withinLog (onAppendEntries_accept args).
Proof.
  intros n Hn. rewrite onAppendEntries_accept_node. cbv zeta.
  set (na := node (appendEntries_forEach _ _ _ _)).
  assert (Ha : withinLog na).
  { apply appendEntries_forEach_withinLog.
    revert Hn. apply withinLog_same; reflexivity. }
  match goal with
  | |- withinLog (set_leaderTimeout true (node (applyLogEntries ?nc))) =>
      assert (Hc : withinLog nc)
  end.
  { destruct (AE.leaderCommit args) as [lc| |]; cbn [js_gt]; try exact Ha.
    destruct Ha as (c & Hc & Hlow & Hle & Hlen). rewrite Hc.
    destruct (lc >? c) eqn:Hgt; [|exists c; auto].
    rewrite Z.gtb_ltb in Hgt. apply Z.ltb_lt in Hgt.
    exists (Z.min lc (Z.of_nat (List.length (log na)) - 1)). cbn.
    repeat split; trivial; lia. }
  apply applyLogEntries_withinLog in Hc.
  revert Hc. apply withinLog_same; reflexivity.
Qed.

Lemma onAppendEntries_follower_withinLog args :
  keeps withinLog (onAppendEntries_follower args).
Proof.
  intros n Hn. unfold onAppendEntries_follower. rewrite bind_this.
  destruct (AE.isResponse args); [exact Hn|].
  destruct (_ <=? _); [exact Hn|].
  destruct (_ <? _); [exact Hn|].
  destruct (_ && _).
  { revert Hn. apply withinLog_same; reflexivity. }
  destruct (currentLeaderId n) as [leader|].
  - destruct (negb _); [exact Hn|].
    apply onAppendEntries_accept_withinLog, Hn.
  - rewrite bind_assign. apply onAppendEntries_accept_withinLog.
    revert Hn. apply withinLog_same; reflexivity.
Qed.

Lemma onAppendEntries_newTerm_preserves {X} (f : RaftNode -> X) args :
  (forall v n, f (set_state v n) = f n) ->
  (forall v n, f (set_currentLeaderId v n) = f n) ->
  (forall v n, f (set_currentTerm v n) = f n) ->
  (forall v n, f (set_lastMessageNum v n) = f n) ->
  (forall v n, f (set_leaderTimeout v n) = f n) ->
  (forall v n, f (set_electionTimeout v n) = f n) ->
  (forall v n, f (set_heartbeatTimeouts v n) = f n) ->
  preserves f (onAppendEntries_newTerm args).
Proof. intros. unfold onAppendEntries_newTerm. frame_methods. Qed.

Lemma onRequestVoteMessage_preserves {X} (f : RaftNode -> X) args :
  (forall v n, f (set_state v n) = f n) ->
  (forall v n, f (set_votedFor v n) = f n) ->
  (forall v n, f (set_votesGathered v n) = f n) ->
  (forall v n, f (set_currentLeaderId v n) = f n) ->
  (forall v n, f (set_currentTerm v n) = f n) ->
  (forall v n, f (set_lastMessageNum v n) = f n) ->
  (forall v n, f (set_leaderTimeout v n) = f n) ->
  (forall v n, f (set_electionTimeout v n) = f n) ->
  (forall v n, f (set_heartbeatTimeouts v n) = f n) ->
  (forall v n, f (set_nodeIdToMessageNum v n) = f n) ->
  (forall v n, f (set_matchIndex v n) = f n) ->
  (forall v n, f (set_nextIndex v n) = f n) ->
  (forall v n, f (set_lastSent v n) = f n) ->
  preserves f (onRequestVoteMessage args).
Proof.
  intros. unfold onRequestVoteMessage, onRequestVote_newTerm, onRequestVote_follower,
    onRequestVote_leader, onRequestVote_candidate, becomeLeader.
  frame_methods.
Qed.

Lemma startNewElection_preserves {X} (f : RaftNode -> X) :
  (forall v n, f (set_state v n) = f n) ->
  (forall v n, f (set_votesGathered v n) = f n) ->
  (forall v n, f (set_currentLeaderId v n) = f n) ->
  (forall v n, f (set_currentTerm v n) = f n) ->
  (forall v n, f (set_leaderTimeout v n) = f n) ->
  (forall v n, f (set_electionTimeout v n) = f n) ->
  (forall v n, f (set_heartbeatTimeouts v n) = f n) ->
  preserves f startNewElection.
Proof. intros. unfold startNewElection. frame_methods. Qed.

(** A leader and a candidate change nothing of their records, and nothing
    of their log but callbacks, whatever the AppendEntries message. *)
Lemma onAppendEntries_leader_content args :
  preserves (fun n => map content (log n)) (onAppendEntries_leader args).
Proof.
  assert (Happly := applyLogEntries_content).
  unfold onAppendEntries_leader, onAppendEntries_success. frame_methods; auto.
Qed.

Lemma onAppendEntries_candidate_same args n :
  node (onAppendEntries_candidate args n) = n.
Proof.
  unfold onAppendEntries_candidate. rewrite bind_this.
  destruct (AE.isResponse args); reflexivity.
Qed.

(** X8.  The order of the indices, [-1 <= lastApplied <= commitIndex <=
    log.length - 1] with a commit index that is a number, is kept by every
    message but one: the successful response that a leader handles, where
    the commit index is computed anew.  A follower therefore never applies
    an index that is not in its log. *)
Theorem indices_stay_within_log m n :
  withinLog n ->
  (forall args, m = APPENDENTRIES args ->
     ~ (state n = LEADER /\ AE.term args <= currentTerm n /\
        AE.isResponse args = true /\ AE.success args = true)) ->
  withinLog (node (onMessage m n)).
Proof.
  intros Hn Hcase. destruct m as [args|args]; cbn [onMessage].
  - specialize (Hcase args eq_refl).
    unfold onAppendEntriesMessage.
    rewrite (bind_node_normal _ _ n (a:=tt))
      by (apply returns_unit, onAppendEntries_newTerm_returns).
    set (n1 := node (onAppendEntries_newTerm args n)).
    assert (H1 : withinLog n1).
    { revert Hn. apply withinLog_same; unfold n1.
      - rewrite (onAppendEntries_newTerm_preserves log) by reflexivity. reflexivity.
      - apply (onAppendEntries_newTerm_preserves commitIndex); reflexivity.
      - apply (onAppendEntries_newTerm_preserves lastApplied); reflexivity. }
    rewrite bind_this.
    destruct (state n1) eqn:Hstate1.
    + apply onAppendEntries_follower_withinLog, H1.
    + rewrite onAppendEntries_candidate_same. exact H1.
    + assert (Hsame : AE.term args <= currentTerm n /\ n1 = n).
      { destruct (Z_lt_le_dec (currentTerm n) (AE.term args)) as [Hnew|Hold].
        - destruct (newTerm_node_AE args n Hnew) as (Hs & _).
          fold n1 in Hs. congruence.
        - split; [exact Hold|]. unfold n1, onAppendEntries_newTerm.
          rewrite bind_this, (gtb_false Hold). reflexivity. }
      destruct Hsame as [Hold Hsame]. rewrite Hsame in *.
      unfold onAppendEntries_leader. rewrite bind_this.
      destruct (AE.isResponse args) eqn:Hresp; cbn [negb]; [|exact H1].
      destruct (AE.success args) eqn:Hsuccess.
      * exfalso. apply Hcase. auto.
      * rewrite bind_assign, resetHeartbeatTimeout_one
          by (cbn; rewrite Hstate1; discriminate).
        revert H1. apply withinLog_same; reflexivity.
  - revert Hn. apply withinLog_same.
    + rewrite (onRequestVoteMessage_preserves log) by reflexivity. reflexivity.
    + apply (onRequestVoteMessage_preserves commitIndex); reflexivity.
    + apply (onRequestVoteMessage_preserves lastApplied); reflexivity.
Qed.

Lemma indices_stay_within_log_witness :
  withinLog (node (onMessage (APPENDENTRIES (request "B" 3 5 0 (Some 1) [sampleRecord 2] 0))
                     (followerOfB 2))).
Proof.
  apply indices_stay_within_log.
  - exists 2. repeat split; discriminate.
  - intros args H (Hstate & _). discriminate Hstate.
Defined.

(** X9.  Whatever the state of the node, an AppendEntries message never
    changes what the records at the indices up to its prevLogIndex hold:
    the log is only cut and extended above prevLogIndex. *)
Theorem records_up_to_prevLogIndex_stay args n :
  let k := Z.to_nat (AE.prevLogIndex args + 1) in
  firstn k (map content (log (node (onAppendEntriesMessage args n)))) =
  firstn k (map content (log n)).
Proof.
  intros k. unfold onAppendEntriesMessage.
  rewrite (bind_node_normal _ _ n (a:=tt))
    by (apply returns_unit, onAppendEntries_newTerm_returns).
  assert (Hlog1 : log (node (onAppendEntries_newTerm args n)) = log n)
    by (apply (onAppendEntries_newTerm_preserves log); reflexivity).
  rewrite <- Hlog1. clear Hlog1.
  set (n1 := node (onAppendEntries_newTerm args n)).
  rewrite bind_this.
  destruct (state n1).
  - unfold onAppendEntries_follower. rewrite bind_this.
    destruct (AE.isResponse args); [reflexivity|].
    destruct (_ <=? _); [reflexivity|].
    destruct (_ <? _); [reflexivity|].
    destruct (_ && _) eqn:Hprev; [reflexivity|].
    assert (Hk : (k <= List.length (log n1))%nat).
    { apply andb_false_iff in Hprev. destruct Hprev as [Hneg|Hat].
      - rewrite Z.geb_leb in Hneg. apply Z.leb_gt in Hneg. unfold k. lia.
      - destruct (log_at (log n1) (AE.prevLogIndex args)) as [e|] eqn:He;
          [|discriminate].
        unfold log_at, log_get in He.
        destruct (AE.prevLogIndex args <? 0) eqn:Hneg.
        + apply Z.ltb_lt in Hneg. unfold k. lia.
        + apply Z.ltb_ge in Hneg.
          assert (Z.to_nat (AE.prevLogIndex args) < List.length (log n1))%nat
            by (apply nth_error_Some; congruence).
          unfold k. lia. }
    assert (Haccept : forall n0,
              log n0 = log n1 ->
              firstn k (map content (log (node (onAppendEntries_accept args n0)))) =
              firstn k (map content (log n1))).
    { intros n0 Hlog.
      destruct (Z_lt_le_dec (AE.prevLogIndex args + 1) 0) as [Hbelow|Hindex].
      { assert (Hzero : k = 0%nat) by (unfold k; lia). rewrite Hzero. reflexivity. }
      rewrite onAppendEntries_accept_node. cbv zeta.
      set (na := node (appendEntries_forEach _ _ _ _)).
      assert (Ha : firstn k (log na) = firstn k (log n1)).
      { unfold na. rewrite <- Hlog.
        refine (proj1 (@appendEntries_forEach_prefix _ k _ 0 _ _ _ _)); cbn;
          rewrite ?Hlog; unfold k in *; lia. }
      match goal with
      | |- context [applyLogEntries ?nc] =>
          assert (Happly := applyLogEntries_content nc);
          assert (Hc : log nc = log na) by (destruct (js_gt _ _); reflexivity);
          change (log (set_leaderTimeout true (node (applyLogEntries nc))))
            with (log (node (applyLogEntries nc)))
      end.
      cbv beta in Happly. rewrite Happly, Hc, !firstn_map, Ha. reflexivity. }
    destruct (currentLeaderId n1).
    + destruct (negb _); [reflexivity|]. apply Haccept. reflexivity.
    + rewrite bind_assign. apply Haccept. reflexivity.
  - rewrite onAppendEntries_candidate_same. reflexivity.
  - change (map content (log (node (onAppendEntries_leader args n1))))
      with ((fun n => map content (log n)) (node (onAppendEntries_leader args n1))).
    rewrite onAppendEntries_leader_content. reflexivity.
Qed.

(** ** What reaches the log *)

(** X10.  Votes and elections leave the log alone: neither a RequestVote
    message nor the start of an election changes the log, the commit index
    or the index of the last applied record. *)
Theorem votes_and_elections_leave_the_log args n :
  let voted := node (onRequestVoteMessage args n) in
  let started := node (startNewElection n) in
  (log voted = log n /\ commitIndex voted = commitIndex n /\
   lastApplied voted = lastApplied n) /\
  (log started = log n /\ commitIndex started = commitIndex n /\
   lastApplied started = lastApplied n).
Proof.
  cbv zeta. repeat split.
  - apply (onRequestVoteMessage_preserves log); reflexivity.
  - apply (onRequestVoteMessage_preserves commitIndex); reflexivity.
  - apply (onRequestVoteMessage_preserves lastApplied); reflexivity.
  - apply (startNewElection_preserves log); reflexivity.
  - apply (startNewElection_preserves commitIndex); reflexivity.
  - apply (startNewElection_preserves lastApplied); reflexivity.
Qed.

(** X11.  Only a follower takes records: a leader or a candidate that
    handles an AppendEntries message of its term or an older one keeps
    every record of its log as it is (the applier of the leader may only
    clear callbacks), and a candidate keeps the whole node. *)
Theorem only_followers_take_records args n :
  state n <> FOLLOWER ->
  AE.term args <= currentTerm n ->
  let r := node (onAppendEntriesMessage args n) in
  map content (log r) = map content (log n) /\
  (state n = CANDIDATE -> r = n).
Proof.
  intros Hstate Hterm r. unfold r.
  rewrite onAppendEntriesMessage_same_term by exact Hterm.
  destruct (state n); [congruence| |].
  - rewrite onAppendEntries_candidate_same. auto.
  - split; [|discriminate].
    apply (onAppendEntries_leader_content args n).
Qed.

Lemma only_followers_take_records_witness :
  map content (log (node (onAppendEntriesMessage
                            (request "B" 2 7 0 (Some 1) [sampleRecord 2] 0) leaderOfThree))) =
  map content (log leaderOfThree).
Proof.
  refine (proj1 (@only_followers_take_records
                   (request "B" 2 7 0 (Some 1) [sampleRecord 2] 0) leaderOfThree _ _)).
  - discriminate.
  - vm_compute. discriminate.
Defined.

Lemma follower_accepts args n :
  accepts args n = true ->
  onAppendEntriesMessage args n =
  onAppendEntries_accept args (set_currentLeaderId (Some (AE.senderId args)) n).
Proof.
  unfold accepts. intros H.
  repeat (apply andb_prop in H; let H' := fresh "H" in destruct H as [H H']).
  destruct (state n) eqn:Hstate; try discriminate.
  apply Z.eqb_eq in H4. apply negb_true_iff in H3. apply Z.ltb_lt in H2.
  apply negb_true_iff in H1.
  rewrite onAppendEntriesMessage_same_term by lia. rewrite Hstate.
  unfold onAppendEntries_follower. rewrite bind_this, H3.
  replace (AE.messageNum args <=? lastMessageNum n) with false
    by (symmetry; apply Z.leb_gt; exact H2).
  replace (AE.term args <? currentTerm n) with false
    by (symmetry; apply Z.ltb_ge; lia).
  rewrite H1.
  destruct (currentLeaderId n) as [leader|] eqn:Hleader.
  - rewrite H0. cbn [negb]. apply String.eqb_eq in H0. subst leader.
    f_equal. rewrite <- Hleader. destruct n; reflexivity.
  - rewrite bind_assign. reflexivity.
Qed.

Lemma set_log_twice l l' n : set_log l (set_log l' n) = set_log l n.
Proof. destruct n; reflexivity. Qed.

(** The entries of a request that starts where the log ends are put at
    its end, one after the other, and nothing is cut. *)
Lemma appendEntries_forEach_extends p es : forall i n,
  Z.of_nat (List.length (log n)) = p + i + 1 ->
  node (appendEntries_forEach p i es n) = set_log (log n ++ es) n.
Proof.
  induction es as [|e rest IH]; intros i n Hlen; cbn [appendEntries_forEach].
  - cbn. rewrite app_nil_r, set_log_same. reflexivity.
  - assert (Hstep : appendEntry (p + i + 1) e n =
                    mkOutcome (Normal tt) (set_log (log n ++ [e]) n) []).
    { apply appendEntry_append. intros old Hget. unfold log_get in Hget.
      destruct (p + i + 1 <? 0); [discriminate|].
      assert (Z.to_nat (p + i + 1) < List.length (log n))%nat
        by (apply nth_error_Some; congruence).
      lia. }
    rewrite (bind_node_normal _ _ n (a:=tt)) by (rewrite Hstep; reflexivity).
    rewrite Hstep. cbn [node].
    rewrite IH.
    + destruct n; cbn. rewrite <- app_assoc. reflexivity.
    + destruct n; cbn. rewrite length_app. cbn in *. lia.
Qed.

(** The entries that the log already holds from their index on, with the
    same terms, are put at its end once more. *)
Lemma appendEntries_forEach_again p es : forall i n pre post,
  map content (log n) = pre ++ map content es ++ post ->
  Z.of_nat (List.length pre) = p + i + 1 ->
  node (appendEntries_forEach p i es n) = set_log (log n ++ es) n.
Proof.
  induction es as [|e rest IH]; intros i n pre post Hlog Hlen;
    cbn [appendEntries_forEach].
  - cbn. rewrite app_nil_r, set_log_same. reflexivity.
  - assert (Hstep : appendEntry (p + i + 1) e n =
                    mkOutcome (Normal tt) (set_log (log n ++ [e]) n) []).
    { apply appendEntry_append. intros old Hget. unfold log_get in Hget.
      destruct (p + i + 1 <? 0); [discriminate|].
      rewrite <- Hlen, Nat2Z.id in Hget.
      assert (Hnth : nth_error (map content (log n)) (List.length pre) =
                     Some (content old))
        by (rewrite nth_error_map, Hget; reflexivity).
      rewrite Hlog, nth_error_app2, Nat.sub_diag in Hnth by lia.
      cbn in Hnth. unfold content in Hnth. congruence. }
    rewrite (bind_node_normal _ _ n (a:=tt)) by (rewrite Hstep; reflexivity).
    rewrite Hstep. cbn [node].
    rewrite (IH (i + 1) _ (pre ++ [content e]) (post ++ [content e])).
    + destruct n; cbn. rewrite <- app_assoc. reflexivity.
    + clear Hstep. destruct n; cbn in Hlog |- *. rewrite map_app, Hlog. cbn.
      rewrite <- !app_assoc. cbn. rewrite <- !app_assoc. reflexivity.
    + rewrite length_app. cbn. lia.
Qed.

Lemma onAppendEntries_accept_content args n l :
  log (node (appendEntries_forEach (AE.prevLogIndex args) 0 (AE.entries args)
               (set_lastMessageNum (AE.messageNum args) n))) = l ->
  map content (log (node (onAppendEntries_accept args n))) = map content l.
Proof.
  intros Hl. rewrite onAppendEntries_accept_node. cbv zeta.
  match goal with
  | |- context [applyLogEntries ?nc] =>
      assert (Happly := applyLogEntries_content nc);
      assert (Hc : log nc = l) by (destruct (js_gt _ _); exact Hl);
      change (log (set_leaderTimeout true (node (applyLogEntries nc))))
        with (log (node (applyLogEntries nc)))
  end.
  cbv beta in Happly. rewrite Happly, Hc. reflexivity.
Qed.

Lemma accepted_at_the_end args n :
  accepts args n = true ->
  Z.of_nat (List.length (log n)) = AE.prevLogIndex args + 1 ->
  map content (log (node (onAppendEntriesMessage args n))) =
  map content (log n) ++ map content (AE.entries args).
Proof.
  intros Haccepts Hlen. rewrite (follower_accepts _ _ Haccepts).
  rewrite (@onAppendEntries_accept_content args _ (log n ++ AE.entries args)).
  - apply map_app.
  - rewrite appendEntries_forEach_extends.
    + destruct n; reflexivity.
    + destruct n; cbn in *. lia.
Qed.

(** X12.  A follower that accepts a request starting where its log ends
    (log.length = prevLogIndex + 1) has, afterwards, its records followed
    by the entries of the request, in their order, and answers
    success = true. *)
Theorem entries_extend_the_log args n :
  accepts args n = true ->
  Z.of_nat (List.length (log n)) = AE.prevLogIndex args + 1 ->
  let r := onAppendEntriesMessage args n in
  map content (log (node r)) = map content (log n) ++ map content (AE.entries args) /\
  repliesSuccess (effects r) = true.
Proof.
  intros Haccepts Hlen r. unfold r. split.
  - apply accepted_at_the_end; assumption.
  - rewrite (follower_accepts _ _ Haccepts).
    apply onAppendEntries_accept_acknowledges.
Qed.

Lemma entries_extend_the_log_witness :
  map content (log (node (onAppendEntriesMessage
                            (request "B" 3 5 2 (Some 1) [sampleRecord 3; sampleRecord 3] 2)
                            (followerOfB 2)))) =
  map content (repeat (sampleRecord 1) 3 ++ [sampleRecord 3; sampleRecord 3]).
Proof.
  exact (proj1 (@entries_extend_the_log
                  (request "B" 3 5 2 (Some 1) [sampleRecord 3; sampleRecord 3] 2)
                  (followerOfB 2) eq_refl eq_refl)).
Defined.

(** The follower after a request that it accepted. *)
Lemma accepted_node args n :
  accepts args n = true ->
  let r := node (onAppendEntriesMessage args n) in
  state r = FOLLOWER /\ currentTerm r = currentTerm n /\
  lastMessageNum r = AE.messageNum args /\
  currentLeaderId r = Some (AE.senderId args).
Proof.
  intros Haccepts r. unfold r. rewrite (follower_accepts _ _ Haccepts).
  assert (Hstate : state n = FOLLOWER).
  { unfold accepts in Haccepts. destruct (state n); trivial; discriminate. }
  repeat split.
  - rewrite (onAppendEntries_accept_frame state) by reflexivity. exact Hstate.
  - rewrite (onAppendEntries_accept_frame currentTerm) by reflexivity. reflexivity.
  - apply onAppendEntries_accept_lastMessageNum.
  - rewrite (onAppendEntries_accept_frame currentLeaderId) by reflexivity. reflexivity.
Qed.

(** X13.  AppendEntries is not idempotent.  A request that a follower
    accepted at the end of its log and that arrives once more under a
    greater message number is accepted again, and its entries are then in
    the log twice: the entry that is already at its index with its term is
    kept, and [push] adds it at the end all the same. *)
Theorem repeated_request_is_appended_again sender t k1 k2 prev prevTerm es lc n :
  let first := AE.mk sender t false k1 prev prevTerm es lc false in
  let second := AE.mk sender t false k2 prev prevTerm es lc false in
  accepts first n = true ->
  k1 < k2 ->
  Z.of_nat (List.length (log n)) = prev + 1 ->
  map content (log (fst (deliver [APPENDENTRIES first; APPENDENTRIES second] n))) =
  map content (log n) ++ map content es ++ map content es.
Proof.
  intros first second Haccepts Hnum Hlen. cbn [deliver fst onMessage].
  assert (Hlog1 := @accepted_at_the_end first n Haccepts Hlen).
  destruct (accepted_node _ _ Haccepts) as (Hstate1 & Hterm1 & Hnum1 & Hleader1).
  set (n1 := node (onAppendEntriesMessage first n)) in *.
  cbn [AE.entries AE.messageNum AE.senderId first] in Hlog1, Hnum1, Hleader1.
  assert (Hlength1 : List.length (log n1) = (List.length (log n) + List.length es)%nat).
  { rewrite <- (length_map content (log n1)), Hlog1, length_app, !length_map.
    reflexivity. }
  assert (Haccepts2 : accepts second n1 = true).
  { unfold accepts in Haccepts |- *.
    repeat (apply andb_prop in Haccepts;
            let H' := fresh "H" in destruct Haccepts as [Haccepts H']).
    rewrite Hstate1, Hterm1, Hnum1, Hleader1.
    cbn [AE.term AE.isResponse AE.messageNum AE.prevLogIndex AE.senderId
         first second] in H3 |- *.
    rewrite H3, (proj2 (Z.ltb_lt _ _) Hnum), String.eqb_refl. cbn [negb andb].
    rewrite andb_true_r. apply negb_true_iff.
    destruct (prev >=? 0) eqn:Hprev; [|reflexivity].
    rewrite Z.geb_leb in Hprev. apply Z.leb_le in Hprev. cbn [andb].
    unfold log_at, log_get. replace (prev <? 0) with false
      by (symmetry; apply Z.ltb_ge; exact Hprev).
    destruct (nth_error (log n1) (Z.to_nat prev)) eqn:Hnth; [reflexivity|].
    apply nth_error_None in Hnth. lia. }
  fold n1.
  rewrite (follower_accepts _ _ Haccepts2).
  rewrite (@onAppendEntries_accept_content second _ (log n1 ++ es)).
  - rewrite map_app, Hlog1, <- app_assoc. reflexivity.
  - cbn [AE.prevLogIndex AE.entries AE.messageNum AE.senderId second].
    rewrite (@appendEntries_forEach_again prev es 0 _ (map content (log n)) []).
    + destruct n1; reflexivity.
    + rewrite app_nil_r. destruct n1; cbn in Hlog1 |- *. exact Hlog1.
    + rewrite length_map. lia.
Qed.

Lemma repeated_request_is_appended_again_witness :
  map content
    (log (fst (deliver [APPENDENTRIES (request "B" 3 5 2 (Some 1) [sampleRecord 3] 2);
                        APPENDENTRIES (request "B" 3 6 2 (Some 1) [sampleRecord 3] 2)]
                 (followerOfB 2)))) =
  map content (repeat (sampleRecord 1) 3 ++ [sampleRecord 3; sampleRecord 3]).
Proof.
  apply (@repeated_request_is_appended_again "B" 3 5 6 2 (Some 1) [sampleRecord 3]
           (Num 2) (followerOfB 2)).
  - reflexivity.
  - lia.
  - reflexivity.
Defined.

(** ** The heartbeat of the leader *)

(** X14.  The heartbeat of a leader for a node [p] with nextIndex[p] = k.
    When k is not above the length of the log, the request carries
    prevLogIndex = k - 1, the term of the record there (null below index
    0) and the records from [slice(k)], lastSent[p] becomes the last index
    of the log and the timer of [p] is set again; for 0 <= k the entries
    sent are those from k to the end, so prevLogIndex + entries.length is
    the new lastSent[p].  When k is above the length of the log, reading
    the term throws before anything is sent, and the timer of [p] is not
    set again. *)
Theorem heartbeat_covers_the_log p k n :
  state n = LEADER ->
  Map_get (nextIndex n) p = Some (Num k) ->
  let r := sendHeartbeat_leader p n in
  let len := Z.of_nat (List.length (log n)) in
  let entries := log_slice (log n) (Num k) in
  (k <= len ->
   completion r = Normal tt /\
   effects r =
     [sendReplicationTo (socketOf n p) (Map_num (nodeIdToMessageNum n) p) (currentTerm n)
        (Num (k - 1)) (termAt (log n) (k - 1)) entries (commitIndex n);
      clearTimeout (HeartbeatTimer p); setTimeout (HeartbeatTimer p)] /\
   Map_num (lastSent (node r)) p = Num (len - 1) /\
   Map_get (heartbeatTimeouts (node r)) p = Some tt /\
   (0 <= k -> entries = skipn (Z.to_nat k) (log n) /\
              (k - 1) + Z.of_nat (List.length entries) = len - 1)) /\
  (len < k ->
   r = mkOutcome (Throw "TypeError: Cannot read properties of undefined (reading 'term')")
         n []).
Proof.
  intros Hstate Hnext r len entries.
  assert (Hnum : Map_num (nextIndex n) p = Num k)
    by (unfold Map_num; rewrite Hnext; reflexivity).
  split.
  - intros Hk.
    assert (Hread :
      (if k - 1 >=? 0
       then match log_get (log n) (k - 1) with
            | Some r0 => ret (Some (term r0))
            | None =>
                throw "TypeError: Cannot read properties of undefined (reading 'term')"
            end
       else ret None) n = mkOutcome (Normal (termAt (log n) (k - 1))) n []).
    { unfold termAt, log_get. destruct (k - 1 >=? 0) eqn:Hge.
      - rewrite Z.geb_leb in Hge. apply Z.leb_le in Hge.
        replace (k - 1 <? 0) with false by (symmetry; apply Z.ltb_ge; lia).
        destruct (nth_error (log n) (Z.to_nat (k - 1))) eqn:Hnth; [reflexivity|].
        apply nth_error_None in Hnth. unfold len in Hk. lia.
      - rewrite Z.geb_leb in Hge. apply Z.leb_gt in Hge.
        replace (k - 1 <? 0) with true by (symmetry; apply Z.ltb_lt; lia).
        reflexivity. }
    assert (Hr : r =
      mkOutcome (Normal tt)
        (set_heartbeatTimeouts (Map_set p tt (Map_delete p (heartbeatTimeouts n)))
           (set_lastSent (Map_set p (Num (len - 1)) (lastSent n)) n))
        [sendReplicationTo (socketOf n p) (Map_num (nodeIdToMessageNum n) p)
           (currentTerm n) (Num (k - 1)) (termAt (log n) (k - 1)) entries (commitIndex n);
         clearTimeout (HeartbeatTimer p); setTimeout (HeartbeatTimer p)]).
    { unfold r, sendHeartbeat_leader. rewrite bind_this, Hnum.
      cbn [js_add js_ge0]. replace (k + -1) with (k - 1) by lia.
      erewrite bind_known by exact Hread.
      erewrite (@bind_known _ _ (call _)) by reflexivity.
      rewrite bind_assign.
      rewrite resetHeartbeatTimeout_one by (cbn; rewrite Hstate; discriminate).
      reflexivity. }
    rewrite Hr.
    cbn [completion effects node lastSent set_lastSent set_heartbeatTimeouts
         heartbeatTimeouts].
    rewrite Map_num_set_same, Map_get_set_same.
    repeat split; trivial.
    + unfold entries, log_slice.
      replace (k <? 0) with false by (symmetry; apply Z.ltb_ge; lia). reflexivity.
    + unfold entries, log_slice.
      replace (k <? 0) with false by (symmetry; apply Z.ltb_ge; lia).
      rewrite length_skipn. unfold len in *. lia.
  - intros Hk. unfold r, sendHeartbeat_leader. rewrite bind_this, Hnum.
    cbn [js_add js_ge0]. replace (k + -1) with (k - 1) by lia.
    unfold bind at 1.
    replace (k - 1 >=? 0) with true by (symmetry; apply geb_true; unfold len in Hk; lia).
    unfold log_get.
    replace (k - 1 <? 0) with false
      by (symmetry; apply Z.ltb_ge; unfold len in Hk; lia).
    assert (Hnth : nth_error (log n) (Z.to_nat (k - 1)) = None)
      by (apply nth_error_None; unfold len in Hk; lia).
    rewrite Hnth. reflexivity.
Qed.

Lemma heartbeat_covers_the_log_witness :
  Map_num (lastSent (node (sendHeartbeat_leader "B" leaderOfThree))) "B" = Num 10.
Proof.
  exact (proj1 (proj2 (proj2 (proj1 (@heartbeat_covers_the_log "B" 9 leaderOfThree
                                       eq_refl eq_refl)
                                (ltac:(vm_compute; discriminate)))))).
Defined.

(** ** The leader and the responses *)

Lemma deliver_cons m ms n :
  fst (deliver (m :: ms) n) = fst (deliver ms (node (onMessage m n))).
Proof. cbn [deliver]. destruct (deliver ms _). reflexivity. Qed.

(** X15.  Each response success = false that a leader handles lowers the
    nextIndex of its sender by one, and nothing stops the count at 0:
    after [j] such responses nextIndex[p] is k - j, which is negative as
    soon as j > k.  The leader stays leader and its log is as before. *)
Theorem failures_lower_nextIndex_without_bound p t k j : forall n,
  state n = LEADER ->
  t <= currentTerm n ->
  Map_get (nextIndex n) p = Some (Num k) ->
  let n' := fst (deliver (repeat (APPENDENTRIES (failureFrom p t)) j) n) in
  Map_get (nextIndex n') p = Some (Num (k - Z.of_nat j)) /\
  state n' = LEADER /\ currentTerm n' = currentTerm n /\ log n' = log n.
Proof.
  revert k. induction j as [|j IH]; intros k n Hstate Hterm Hnext; cbv zeta.
  - cbn. rewrite Z.sub_0_r. auto.
  - cbn [repeat]. rewrite deliver_cons. cbn [onMessage].
    rewrite onAppendEntriesMessage_same_term by exact Hterm. rewrite Hstate.
    unfold onAppendEntries_leader. rewrite bind_this. cbn [failureFrom AE.isResponse
      AE.success AE.senderId negb].
    rewrite bind_assign.
    rewrite resetHeartbeatTimeout_one by (cbn; rewrite Hstate; discriminate).
    cbn [node].
    match goal with
    | |- context [deliver _ ?n1] =>
        destruct (IH (k - 1) n1) as (H1 & H2 & H3 & H4)
    end.
    + exact Hstate.
    + exact Hterm.
    + cbn. unfold Map_num. rewrite Hnext. cbn [js_add].
      rewrite Map_get_set_same. do 2 f_equal.
    + rewrite H1, H2, H3, H4. repeat split. do 2 f_equal. lia.
Qed.

Lemma failures_lower_nextIndex_without_bound_witness :
  Map_get (nextIndex (fst (deliver (repeat (APPENDENTRIES (failureFrom "B" 2)) 12)
                             leaderOfThree))) "B" = Some (Num (-3)).
Proof.
  refine (proj1 (@failures_lower_nextIndex_without_bound "B" 2 9 12 leaderOfThree
                   eq_refl _ eq_refl)).
  vm_compute. discriminate.
Defined.

(** The leader after a successful response that it handled to the end:
    the node that the applier is run on. *)
Lemma onAppendEntries_success_node args n :
  state n = LEADER ->
  completion (onAppendEntries_success args n) = Normal tt ->
  exists n2,
    node (onAppendEntries_success args n) = node (applyLogEntries n2) /\
    matchIndex n2 =
      Map_set (AE.senderId args) (Map_num (lastSent n) (AE.senderId args)) (matchIndex n) /\
    commitIndex n2 =
      Array_get (Array_sort (Map_values (matchIndex n2))) (clusterSize n / 2) /\
    lastApplied n2 = lastApplied n /\ log n2 = log n /\ config n2 = config n.
Proof.
  intros Hstate. unfold onAppendEntries_success.
  rewrite !bind_assign, bind_this.
  cbn [nextIndex set_nodeIdToMessageNum set_nextIndex set_matchIndex lastSent log
       nodeIdToMessageNum matchIndex].
  rewrite Map_num_set_same.
  match goal with
  | |- context [bind _ _ ?n0] => set (n1 := n0)
  end.
  destruct (prevLogTerm_of_lastSent (log n) (Map_num (lastSent n) (AE.senderId args)) n1)
    as [[Hcond Hread]|[Hcond [t Hread]]]; cbv zeta in Hread.
  - unfold bind at 1. rewrite Hread. cbn. discriminate.
  - intros _. unfold bind at 1. rewrite Hread.
    cbn [ret completion node effects app].
    rewrite bind_assign, bind_this.
    match goal with
    | |- context [bind ?m _ ?n2] =>
        assert (Hm : exists n3, m n2 = mkOutcome (Normal tt) n3 (effects (m n2)) /\
                                matchIndex n3 = matchIndex n2 /\
                                commitIndex n3 = commitIndex n2 /\
                                lastApplied n3 = lastApplied n2 /\
                                log n3 = log n2 /\ config n3 = config n2)
    end.
    { destruct (_ >? _); [|eexists; split; [reflexivity|auto]].
      erewrite (@bind_known _ _ (call _)) by reflexivity.
      rewrite bind_assign.
      rewrite resetHeartbeatTimeout_one by (cbn; rewrite Hstate; discriminate).
      eexists. split; [reflexivity|]. cbn. auto. }
    destruct Hm as (n3 & Hm & Hmatch & Hcommit & Happlied & Hlog & Hconfig).
    exists n3. rewrite (bind_node_normal _ _ _ (a:=tt)) by (rewrite Hm; reflexivity).
    rewrite Hm. cbn [node].
    rewrite Hmatch, Hcommit, Happlied, Hlog, Hconfig. unfold n1. cbn.
    repeat split.
Qed.

Lemma leader_success_node args n :
  state n = LEADER ->
  AE.term args <= currentTerm n ->
  AE.isResponse args = true ->
  AE.success args = true ->
  onAppendEntriesMessage args n = onAppendEntries_success args n.
Proof.
  intros Hstate Hterm Hresp Hsuccess.
  rewrite onAppendEntriesMessage_same_term by exact Hterm. rewrite Hstate.
  unfold onAppendEntries_leader. rewrite bind_this, Hresp, Hsuccess. reflexivity.
Qed.

(** ** The order of [sort()] *)

Lemma oneDigit_Num x : oneDigit x = true -> exists z, x = Num z /\ -1 <= z <= 9.
Proof.
  destruct x as [z| |]; try discriminate. cbn. intros H.
  apply andb_prop in H. destruct H as [H1 H2].
  apply Z.leb_le in H1. apply Z.leb_le in H2. eauto.
Qed.

Lemma sort_le_oneDigit x y :
  oneDigit x = true -> oneDigit y = true -> sort_le x y = numeric_le x y.
Proof.
  intros Hx Hy.
  destruct (oneDigit_Num _ Hx) as (a & -> & Ha).
  destruct (oneDigit_Num _ Hy) as (b & -> & Hb).
  assert (Hcases : forall z, -1 <= z <= 9 ->
            z = -1 \/ z = 0 \/ z = 1 \/ z = 2 \/ z = 3 \/ z = 4 \/ z = 5 \/ z = 6 \/
            z = 7 \/ z = 8 \/ z = 9) by (intros; lia).
  destruct (Hcases a Ha) as [->|[->|[->|[->|[->|[->|[->|[->|[->|[->| ->]]]]]]]]]];
    destruct (Hcases b Hb) as [->|[->|[->|[->|[->|[->|[->|[->|[->|[->| ->]]]]]]]]]];
    vm_compute; reflexivity.
Qed.

Lemma sort_insert_oneDigit x l :
  oneDigit x = true -> forallb oneDigit l = true ->
  sort_insert x l = numeric_insert x l /\ forallb oneDigit (numeric_insert x l) = true.
Proof.
  intros Hx. induction l as [|y l IH]; cbn; intros Hl.
  - rewrite Hx. auto.
  - apply andb_prop in Hl. destruct Hl as [Hy Hl].
    rewrite (sort_le_oneDigit _ _ Hx Hy).
    destruct (IH Hl) as [IH1 IH2].
    destruct (numeric_le x y); cbn; rewrite ?Hx, ?Hy, ?Hl, ?IH1, ?IH2; auto.
Qed.

(** On match indices from -1 to 9 the order of [sort()] is the numerical
    order. *)
Lemma Array_sort_oneDigit l :
  forallb oneDigit l = true -> Array_sort l = sort_numerically l.
Proof.
  intros Hl. unfold Array_sort, sort_numerically.
  assert (Hkeep : filter (fun x => negb (is_undefined x)) l = l /\
                  filter is_undefined l = []).
  { induction l as [|x l IH]; [auto|]. cbn in Hl |- *.
    apply andb_prop in Hl. destruct Hl as [Hx Hl].
    destruct (IH Hl) as [IH1 IH2].
    destruct (oneDigit_Num _ Hx) as (z & -> & _). cbn. rewrite IH1, IH2. auto. }
  destruct Hkeep as [-> ->]. rewrite app_nil_r.
  assert (Hsorted : fold_right sort_insert [] l = fold_right numeric_insert [] l /\
                    forallb oneDigit (fold_right numeric_insert [] l) = true).
  { induction l as [|x l IH]; [auto|]. cbn in Hl |- *.
    apply andb_prop in Hl. destruct Hl as [Hx Hl].
    destruct (IH Hl) as [IH1 IH2]. rewrite IH1.
    apply sort_insert_oneDigit; assumption. }
  apply Hsorted.
Qed.

(** X16.  While every match index is between -1 and 9, the commit index
    that a leader computes on a successful response is the one of the
    numerical order: the element at position floor(clusterSize/2) of the
    match indices sorted as numbers.  (From index 10 on, the order of
    [sort()] and the numerical order differ.) *)
Theorem one_digit_indices_commit_numerically args n :
  state n = LEADER ->
  AE.term args <= currentTerm n ->
  AE.isResponse args = true ->
  AE.success args = true ->
  let r := onAppendEntriesMessage args n in
  completion r = Normal tt ->
  forallb oneDigit
    (Map_values (Map_set (AE.senderId args) (Map_num (lastSent n) (AE.senderId args))
                   (matchIndex n))) = true ->
  commitIndex (node r) = commitIndex_numeric (node r).
Proof.
  intros Hstate Hterm Hresp Hsuccess r. unfold r.
  rewrite (leader_success_node _ _ Hstate Hterm Hresp Hsuccess).
  intros Hreturn Hsmall.
  destruct (onAppendEntries_success_node args n Hstate Hreturn)
    as (n2 & -> & Hmatch & Hcommit & _ & _ & Hconfig).
  unfold commitIndex_numeric, clusterSize.
  rewrite (applyLogEntries_frame commitIndex), (applyLogEntries_frame matchIndex),
    (applyLogEntries_frame config) by reflexivity.
  rewrite Hcommit, Hconfig, Hmatch, (Array_sort_oneDigit _ Hsmall). reflexivity.
Qed.

Lemma one_digit_indices_commit_numerically_witness :
  commitIndex (node (onAppendEntriesMessage (successFrom "B" 2) leaderOfFive)) =
  commitIndex_numeric (node (onAppendEntriesMessage (successFrom "B" 2) leaderOfFive)).
Proof.
  apply one_digit_indices_commit_numerically; reflexivity.
Defined.

Lemma sort_insert_length x l : List.length (sort_insert x l) = S (List.length l).
Proof.
  induction l as [|y l IH]; cbn; [reflexivity|].
  destruct (sort_le x y); cbn; [reflexivity|]. rewrite IH. reflexivity.
Qed.

Lemma Array_sort_length l : List.length (Array_sort l) = List.length l.
Proof.
  unfold Array_sort. rewrite length_app.
  induction l as [|x l IH]; [reflexivity|]. cbn [filter].
  destruct (is_undefined x); cbn [negb fold_right List.length].
  - rewrite Nat.add_succ_r, IH. reflexivity.
  - rewrite sort_insert_length. cbn. rewrite IH. reflexivity.
Qed.

(** X17.  The commit rule reads position floor(clusterSize/2) of the
    sorted match indices.  When the leader has no more match indices than
    that, as in a cluster of two nodes (one match index, position 1), the
    position does not exist: the commit index becomes undefined on every
    successful response, and the applier then applies nothing. *)
Theorem too_few_match_indices_undefine_commitIndex args n :
  state n = LEADER ->
  AE.term args <= currentTerm n ->
  AE.isResponse args = true ->
  AE.success args = true ->
  let r := onAppendEntriesMessage args n in
  completion r = Normal tt ->
  Z.of_nat (List.length
              (Map_set (AE.senderId args) (Map_num (lastSent n) (AE.senderId args))
                 (matchIndex n))) <= clusterSize n / 2 ->
  commitIndex (node r) = Undefined /\
  lastApplied (node r) = lastApplied n /\
  log (node r) = log n.
Proof.
  intros Hstate Hterm Hresp Hsuccess r. unfold r.
  rewrite (leader_success_node _ _ Hstate Hterm Hresp Hsuccess).
  intros Hreturn Hfew.
  destruct (onAppendEntries_success_node args n Hstate Hreturn)
    as (n2 & -> & Hmatch & Hcommit & Happlied & Hlog & _).
  assert (Hundefined : commitIndex n2 = Undefined).
  { rewrite Hcommit, Hmatch. unfold Array_get.
    replace (clusterSize n / 2 <? 0) with false
      by (symmetry; apply Z.ltb_ge; lia).
    apply nth_overflow.
    rewrite Array_sort_length. unfold Map_values. rewrite length_map. lia. }
  rewrite applyLogEntries_nothing by (rewrite Hundefined; reflexivity).
  cbn [ignored node]. auto.
Qed.

Lemma too_few_match_indices_undefine_commitIndex_witness :
  commitIndex (node (onAppendEntriesMessage (successFrom "B" 2) leaderOfTwo)) = Undefined.
Proof.
  refine (proj1 (@too_few_match_indices_undefine_commitIndex (successFrom "B" 2)
                   leaderOfTwo eq_refl _ eq_refl eq_refl eq_refl _)).
  - cbn. lia.
  - vm_compute. discriminate.
Defined.
